(** * Forum post formatting and the emoticon extension

    A shallow embedding of [post_formatter.py] and
    [formatters/mdx_emoticons.py].  Python strings are byte strings
    ([string] of the Standard Library); a [dict] is an association list in
    the order of insertion, and the order in which the interpreter lists
    its keys is a parameter; exceptions are values of [exn] carried by
    [result].

    The library functions the two modules call ([re.sub], [re.escape],
    [str.strip], [django.utils.html.escape], the [%] operator on strings,
    [markdown.Extension.getConfig]) are given as definitions named after
    them; the Markdown renderer itself stays a parameter. *)

From Stdlib Require Import String Ascii List Bool Arith Lia Permutation.
Import ListNotations.
Open Scope list_scope.
Open Scope string_scope.

(** ** Python string primitives *)

Module PyStr.

Definition LF : ascii := "010"%char.
Definition DQUOTE : ascii := "034"%char.

Definition chr (c : ascii) : string := String c "".

Definition nl : string := chr LF.

(** [sep.join(l)] *)
Fixpoint join (sep : string) (l : list string) : string :=
  match l with
  | [] => ""
  | [x] => x
  | x :: rest => x ++ sep ++ join sep rest
  end.

(** [s.split(sep)] for a one-character separator: never the empty list. *)
Fixpoint split (sep : ascii) (s : string) : list string :=
  match s with
  | "" => [""]
  | String c s' =>
      if Ascii.eqb c sep then "" :: split sep s'
      else match split sep s' with
           | [] => [chr c]
           | x :: rest => String c x :: rest
           end
  end.

(** [s.replace(old, new)] for a one-character [old]. *)
Fixpoint replace (old : ascii) (new : string) (s : string) : string :=
  match s with
  | "" => ""
  | String c s' =>
      (if Ascii.eqb c old then new else chr c) ++ replace old new s'
  end.

(** The characters [str.strip()] removes: space, tab, line feed, carriage
    return, vertical tab and form feed. *)
Definition isspace (c : ascii) : bool :=
  let n := nat_of_ascii c in
  Nat.eqb n 32 || (Nat.leb 9 n && Nat.leb n 13).

Fixpoint lstrip (s : string) : string :=
  match s with
  | "" => ""
  | String c s' => if isspace c then lstrip s' else s
  end.

Fixpoint rstrip (s : string) : string :=
  match s with
  | "" => ""
  | String c s' =>
      match rstrip s' with
      | "" => if isspace c then "" else chr c
      | r => String c r
      end
  end.

(** [s.strip()] *)
Definition strip (s : string) : string := rstrip (lstrip s).

Fixpoint all_chars (p : ascii -> bool) (s : string) : bool :=
  match s with
  | "" => true
  | String c s' => p c && all_chars p s'
  end.

Definition first_char (s : string) : option ascii :=
  match s with
  | "" => None
  | String c _ => Some c
  end.

Fixpoint last_char (s : string) : option ascii :=
  match s with
  | "" => None
  | String c "" => Some c
  | String _ s' => last_char s'
  end.

Fixpoint mem_char (c : ascii) (s : string) : bool :=
  match s with
  | "" => false
  | String d s' => Ascii.eqb c d || mem_char c s'
  end.

End PyStr.

(** ** post_formatter.py *)

Module PostFormatter.
Import PyStr.

(** [quote_post_re = re.compile(r'^', re.MULTILINE)]: the pattern matches
    the empty string at position [0] and at every position that follows a
    line feed.  [bol prev] tells whether it matches where the previous
    character is [prev] ([None] at position [0]). *)
Definition bol (prev : option ascii) : bool :=
  match prev with
  | None => true
  | Some c => Ascii.eqb c LF
  end.

(** [quote_post_re.sub(repl, s)], scanning [s] with the character before
    the current position in [prev]: every (empty) match is replaced by
    [repl], every character is copied, and the position after the last
    character is tried as well. *)
Fixpoint sub_from (repl : string) (prev : option ascii) (s : string) : string :=
  (if bol prev then repl else "") ++
  match s with
  | "" => ""
  | String c s' => String c (sub_from repl (Some c) s')
  end.

Definition quote_post_re_sub (repl : string) (s : string) : string :=
  sub_from repl None s.

(** [django.utils.html.escape]: five replacements, the ampersand first. *)
Definition escape (html : string) : string :=
  replace "'" "&#39;"
    (replace DQUOTE "&quot;"
       (replace ">" "&gt;"
          (replace "<" "&lt;"
             (replace "&" "&amp;" html)))).

(** The entity that stands for a character in entity-encoded text; the
    other characters stand for themselves. *)
Definition entity (c : ascii) : string :=
  if Ascii.eqb c "&" then "&amp;"
  else if Ascii.eqb c "<" then "&lt;"
  else if Ascii.eqb c ">" then "&gt;"
  else if Ascii.eqb c DQUOTE then "&quot;"
  else if Ascii.eqb c "'" then "&#39;"
  else chr c.

(** Entity encoding, character by character. *)
Fixpoint entity_encode (s : string) : string :=
  match s with
  | "" => ""
  | String c s' => entity c ++ entity_encode s'
  end.

(** The characters that open or close markup and attribute values. *)
Definition markup_char (c : ascii) : bool :=
  Ascii.eqb c "<" || Ascii.eqb c ">" || Ascii.eqb c DQUOTE || Ascii.eqb c "'".

(** The characters [escape] leaves as they are. *)
Definition plain_char (c : ascii) : bool :=
  negb (Ascii.eqb c "&" || markup_char c).

(** What [quote_post] reads of a post. *)
Record User := { username : string }.

Record Post := {
  user : User;
  body : string;
  get_absolute_url : string
}.

(** [u'**%s** [wrote](%s "View quoted post"):\n\n%s\n\n' % (a, b, c)] *)
Definition quote_format (a b c : string) : string :=
  "**" ++ a ++ "** [wrote](" ++ b ++ " " ++ chr DQUOTE ++ "View quoted post"
    ++ chr DQUOTE ++ "):" ++ nl ++ nl ++ c ++ nl ++ nl.

Definition quote_post (post : Post) : string :=
  quote_format
    (escape (username (user post)))
    (get_absolute_url post)
    (quote_post_re_sub "> " (body post)).

(** The post of the specification's example. *)
Definition bob_post : Post :=
  {| user := {| username := "bob" |};
     body := "hello";
     get_absolute_url := "/posts/1" |}.

Section Renderer.

(** [markdown(text, safe_mode)] of the Markdown package. *)
Variable markdown : string -> bool -> string.

Definition format_post_body (body : string) : string :=
  strip (markdown body true).

End Renderer.

End PostFormatter.

(** ** Exceptions and dictionaries *)

Module Py.

Inductive exn :=
| KeyError (key : string)
| TypeError
| AttributeError
| IndexError.

Inductive result (A : Type) :=
| Ok (a : A)
| Raise (e : exn).

Arguments Ok {A} a.
Arguments Raise {A} e.

Definition bind {A B : Type} (r : result A) (k : A -> result B) : result B :=
  match r with
  | Ok a => k a
  | Raise e => Raise e
  end.

(** A [dict] with string keys: its entries in the order in which their
    keys were first inserted; no key occurs twice in a dictionary built
    with [dict_set].  The order in which the interpreter lists the keys is
    another matter, see [keys]. *)
Definition dict (V : Type) : Type := list (string * V).

Fixpoint dict_get {V : Type} (d : dict V) (k : string) : option V :=
  match d with
  | [] => None
  | (k', v) :: rest => if String.eqb k k' then Some v else dict_get rest k
  end.

(** [d[k] = v]: the entry of a key already present is overwritten where
    it is, a new key is recorded after the others. *)
Fixpoint dict_set {V : Type} (d : dict V) (k : string) (v : V) : dict V :=
  match d with
  | [] => [(k, v)]
  | (k', v') :: rest =>
      if String.eqb k k' then (k', v) :: rest
      else (k', v') :: dict_set rest k v
  end.

(** A dictionary display [{k1: v1, k2: v2, ...}]. *)
Definition dict_of_items {V : Type} (items : list (string * V)) : dict V :=
  fold_left (fun d kv => dict_set d (fst kv) (snd kv)) items [].

(** The keys in the order of their first insertion. *)
Definition inserted {V : Type} (d : dict V) : list string := map fst d.

(** [d.keys()]: the interpreter lists the keys in an order of its own,
    which for a dictionary of strings is a function of the insertions:
    [order] applied to the keys as they were inserted. *)
Definition keys {V : Type} (order : list string -> list string) (d : dict V) :
    list string :=
  order (inserted d).

(** What the order of every interpreter does: it lists each key, as often
    as it is there. *)
Definition lists_all_keys (order : list string -> list string) : Prop :=
  forall l : list string, Permutation l (order l).

(** [k in d] *)
Definition has_key {V : Type} (d : dict V) (k : string) : bool :=
  existsb (String.eqb k) (inserted d).

(** [d[k]] *)
Definition getitem {V : Type} (d : dict V) (k : string) : result V :=
  match dict_get d k with
  | Some v => Ok v
  | None => Raise (KeyError k)
  end.

End Py.

Declare Scope py_scope.
Notation "x <- r ;; k" := (Py.bind r (fun x => k))
  (at level 61, r at next level, right associativity) : py_scope.

(** ** The part of [re] the emoticon pattern uses *)

Module Re.
Import PyStr Py.

Definition isdigit (c : ascii) : bool :=
  let n := nat_of_ascii c in Nat.leb 48 n && Nat.leb n 57.

Definition isalpha (c : ascii) : bool :=
  let n := nat_of_ascii c in
  (Nat.leb 65 n && Nat.leb n 90) || (Nat.leb 97 n && Nat.leb n 122).

Definition isalnum (c : ascii) : bool := isalpha c || isdigit c.

Definition NUL : ascii := "000"%char.
Definition BACKSLASH : ascii := "\"%char.
Definition BAR : ascii := "|"%char.

(** [re.escape] as the interpreters of the module's time have it: every
    character that is not a letter or a digit gets a backslash; the null
    character becomes an octal escape. *)
Definition escape_char (c : ascii) : string :=
  if isalnum c then chr c
  else if Ascii.eqb c NUL then "\000"
  else String BACKSLASH (chr c).

Fixpoint escape (pattern : string) : string :=
  match pattern with
  | "" => ""
  | String c s => escape_char c ++ escape s
  end.

(** A compiled pattern of the shape [(?P<name>a1|a2|...|an)] where every
    alternative is a literal string. *)
Record Pattern := {
  group_name : string;
  alternatives : list string
}.

Definition cons_char (c : ascii) (r : option (list string * string)) :
  option (list string * string) :=
  match r with
  | Some (a :: alts, rest) => Some (String c a :: alts, rest)
  | _ => None
  end.

(** The characters with a meaning of their own in a pattern. *)
Definition special (c : ascii) : bool := mem_char c ".^$*+?{}[]\|()".

(** Reads the alternatives up to the closing parenthesis of the group and
    returns them with what follows it.  A character without a meaning of
    its own stands for itself, a backslash before a character that is no
    letter or digit makes it literal, [\000] is the null character;
    everything else is outside the fragment. *)
Fixpoint parse_alternatives (s : string) : option (list string * string) :=
  match s with
  | "" => None
  | String c s' =>
      if Ascii.eqb c ")" then Some ([""], s')
      else if Ascii.eqb c BAR then
        match parse_alternatives s' with
        | Some (alts, rest) => Some ("" :: alts, rest)
        | None => None
        end
      else if Ascii.eqb c BACKSLASH then
        match s' with
        | String d s'' =>
            if isalnum d then
              match s' with
              | String "0" (String "0" (String "0" s3)) =>
                  cons_char NUL (parse_alternatives s3)
              | _ => None
              end
            else cons_char d (parse_alternatives s'')
        | "" => None
        end
      else if special c then None
      else cons_char c (parse_alternatives s')
  end.

Definition isident (c : ascii) : bool := isalnum c || Ascii.eqb c "_".

(** Reads a group name up to its closing [>]. *)
Fixpoint parse_name (s : string) : option (string * string) :=
  match s with
  | "" => None
  | String c s' =>
      if Ascii.eqb c ">" then Some ("", s')
      else if isident c then
        match parse_name s' with
        | Some (name, rest) => Some (String c name, rest)
        | None => None
        end
      else None
  end.

(** [re.compile] on that fragment. *)
Definition compile (pattern : string) : option Pattern :=
  match pattern with
  | String "(" (String "?" (String "P" (String "<" s))) =>
      match parse_name s with
      | Some (String c name, body) =>
          if isdigit c then None
          else
            match parse_alternatives body with
            | Some (alts, "") =>
                Some {| group_name := String c name; alternatives := alts |}
            | _ => None
            end
      | _ => None
      end
  | _ => None
  end.

(** A match object: where the match starts and its named groups. *)
Record Match := {
  start : nat;
  groupdict : dict string
}.

(** [m.group(name)] *)
Definition group (m : Match) (name : string) : result string :=
  match dict_get (groupdict m) name with
  | Some s => Ok s
  | None => Raise IndexError
  end.

(** The alternatives are tried from left to right; the first one the text
    starts with is the match. *)
Definition first_alternative (alts : list string) (text : string) : option string :=
  find (fun a => String.prefix a text) alts.

Fixpoint skip (n : nat) (s : string) : string :=
  match n, s with
  | O, _ => s
  | S n', String _ s' => skip n' s'
  | S _, "" => ""
  end.

(** [p.match(text, pos)] *)
Definition match_at (p : Pattern) (text : string) (pos : nat) : option Match :=
  match first_alternative (alternatives p) (skip pos text) with
  | Some a => Some {| start := pos; groupdict := [(group_name p, a)] |}
  | None => None
  end.

(** The way [markdown.Pattern] applies a rule to a text: it compiles,
    with [re.DOTALL], the rule's pattern between a greedy group of any
    characters before it and one after it, anchored at the two ends of the
    text, and calls [match].  The first group being greedy, the rule's own
    pattern is tried where the text ends first, then one position before,
    and so on back to the start; the last group takes what follows.  [s]
    is the text from position [pos] on. *)
Fixpoint match_last_from (p : Pattern) (pos : nat) (s : string) : option Match :=
  let here :=
    match first_alternative (alternatives p) s with
    | Some a => Some {| start := pos; groupdict := [(group_name p, a)] |}
    | None => None
    end in
  match s with
  | "" => here
  | String _ s' =>
      match match_last_from p (S pos) s' with
      | Some m => Some m
      | None => here
      end
  end.

Definition match_wrapped (p : Pattern) (text : string) : option Match :=
  match_last_from p 0 text.

(** At no position of the text do two of the alternatives match. *)
Fixpoint unambiguous (alts : list string) (s : string) : bool :=
  Nat.leb (List.length (filter (fun a => String.prefix a s) alts)) 1
  && match s with
     | "" => true
     | String _ s' => unambiguous alts s'
     end.

End Re.

(** ** formatters/mdx_emoticons.py *)

Module Emoticons.
Import PyStr Py.
Local Open Scope py_scope.

(** A configuration value: a string or a mapping from symbols to image
    names. *)
Inductive value :=
| VStr (s : string)
| VDict (d : dict string).

(** The table [__init__] starts from. *)
Definition default_emoticons : dict string :=
  dict_of_items
    [ (":angry:", "angry");
      (":blink:", "blink");
      (":D", "grin");
      (":huh:", "huh");
      (":lol:", "lol");
      (":o", "ohmy");
      (":ph34r:", "ph34r");
      (":rolleyes:", "rolleyes");
      (":(", "sad");
      (":)", "smile");
      (":p", "tongue");
      (":unsure:", "unsure");
      (":wacko:", "wacko");
      (";)", "wink");
      (":wub:", "wub") ].

(** [self.config]: option name to [[value, description]]. *)
Definition default_config : dict (value * string) :=
  dict_of_items
    [ ("EMOTICONS",
        (VDict default_emoticons,
         "A mapping from emoticon symbols to image names."));
      ("BASE_URL",
        (VStr "", "The base URL at which emoticons are accessible."));
      ("FILE_EXTENSION",
        (VStr "gif", "The file extension to be used for emoticon images.")) ].

(** The extension object.  The [md] attribute [extendMarkdown] stores is
    read nowhere in the module and is left out. *)
Record EmoticonExtension := {
  config : dict (value * string)
}.

(** [self.config[key][0] = value], for each pair in turn. *)
Fixpoint set_configs (config : dict (value * string))
    (configs : list (string * value)) : result (dict (value * string)) :=
  match configs with
  | [] => Ok config
  | (key, v) :: rest =>
      entry <- getitem config key ;;
      set_configs (dict_set config key (v, snd entry)) rest
  end.

(** [EmoticonExtension.__init__]; [configs] is [None] when [makeExtension]
    is called without an argument, and iterating over [None] fails. *)
Definition __init__ (configs : option (list (string * value))) :
    result EmoticonExtension :=
  match configs with
  | None => Raise TypeError
  | Some pairs =>
      c <- set_configs default_config pairs ;;
      Ok {| config := c |}
  end.

Definition makeExtension (configs : option (list (string * value))) :
    result EmoticonExtension :=
  __init__ configs.

(** [markdown.Extension.getConfig]: the value of a known option, the empty
    string for an unknown one. *)
Definition getConfig (self : EmoticonExtension) (key : string) : value :=
  match dict_get (config self) key with
  | Some entry => fst entry
  | None => VStr ""
  end.

(** The three option names. *)
Definition recognized (key : string) : bool :=
  String.eqb key "EMOTICONS" || String.eqb key "BASE_URL"
  || String.eqb key "FILE_EXTENSION".

(** The value the last pair for [key] supplies, if a pair names it. *)
Definition supplied (configs : list (string * value)) (key : string) :
    option value :=
  dict_get (rev configs) key.

(** The first pair whose option name is not recognized. *)
Definition first_unrecognized (configs : list (string * value)) :
    option (string * value) :=
  find (fun kv => negb (recognized (fst kv))) configs.

(** [self.config[key][1]] *)
Definition description (self : EmoticonExtension) (key : string) :
    option string :=
  option_map snd (dict_get (config self) key).

(** The extension before any pair is applied. *)
Definition default_extension : EmoticonExtension :=
  {| config := default_config |}.

(** [EmoticonPattern]: the pattern text and the extension it reads its
    configuration from. *)
Record EmoticonPattern := {
  pattern : string;
  emoticons : EmoticonExtension
}.

(** An entry of [md.inlinePatterns]: a rule of the renderer's own or the
    emoticon rule. *)
Inductive InlinePattern :=
| HostPattern (pattern : string)
| Emoticon (p : EmoticonPattern).

Record Markdown := {
  inlinePatterns : list InlinePattern
}.

(** ['(?P<emoticon>%s)' % '|'.join([re.escape(e) for e in symbols])] *)
Definition EMOTICON_RE (symbols : list string) : string :=
  "(?P<emoticon>" ++ join "|" (map Re.escape symbols) ++ ")".

(** What a table's symbols compile to: the empty table gives the one
    empty alternative. *)
Definition compiled_alternatives (symbols : list string) : list string :=
  match symbols with
  | [] => [""]
  | _ => symbols
  end.

(** [extendMarkdown] returns the renderer with the rule appended; the
    symbols come in the order [keys] lists them, and a value of
    [EMOTICONS] that is a string has no [keys]. *)
Definition extendMarkdown (order : list string -> list string)
    (self : EmoticonExtension) (md : Markdown) : result Markdown :=
  match getConfig self "EMOTICONS" with
  | VDict d =>
      Ok {| inlinePatterns :=
              inlinePatterns md ++
              [Emoticon {| pattern := EMOTICON_RE (keys order d);
                           emoticons := self |}] |}
  | VStr _ => Raise AttributeError
  end.

(** The elements of the renderer's document tree: a tag, and the
    attributes in the order in which they were first set. *)
Record Element := {
  tagName : string;
  attributes : dict string
}.

(** The renderer's document, which makes the elements; nothing of it is
    read here. *)
Record Document := { }.

Definition createElement (doc : Document) (tag : string) : Element :=
  {| tagName := tag; attributes := [] |}.

Definition setAttribute (el : Element) (name v : string) : Element :=
  {| tagName := tagName el; attributes := dict_set (attributes el) name v |}.

Definition getAttribute (el : Element) (name : string) : option string :=
  dict_get (attributes el) name.

Section HandleMatch.

(** [str(d)] of a dictionary, which [%s] prints when an option that should
    be a string holds a mapping. *)
Variable dict_str : dict string -> string.

Definition str (v : value) : string :=
  match v with
  | VStr s => s
  | VDict d => dict_str d
  end.

(** [EMOTICONS[emoticon]]; indexing a string with a string is a type
    error. *)
Definition image_name (table : value) (emoticon : string) : result string :=
  match table with
  | VDict d => getitem d emoticon
  | VStr _ => Raise TypeError
  end.

Definition handleMatch (self : EmoticonPattern) (m : Re.Match)
    (doc : Document) : result Element :=
  emoticon <- Re.group m "emoticon" ;;
  let el := createElement doc "img" in
  let base := getConfig (emoticons self) "BASE_URL" in
  name <- image_name (getConfig (emoticons self) "EMOTICONS") emoticon ;;
  let ext := getConfig (emoticons self) "FILE_EXTENSION" in
  let el := setAttribute el "src" (str base ++ name ++ "." ++ str ext) in
  let el := setAttribute el "alt" emoticon in
  Ok el.

End HandleMatch.

(** [<img src=... alt=...>] *)
Definition img (src alt : string) : Element :=
  {| tagName := "img"; attributes := [("src", src); ("alt", alt)] |}.

(** A table with a symbol that is a prefix of another, the shorter one
    inserted first. *)
Definition short_first : dict string :=
  dict_of_items [(":o", "ohmy"); (":oo", "wide")].

(** The symbol the pattern of a table matches at a position of a text. *)
Definition matched_symbol (order : list string -> list string)
    (table : dict string) (text : string) (pos : nat) : option string :=
  match Re.compile (EMOTICON_RE (keys order table)) with
  | Some r =>
      match Re.match_at r text pos with
      | Some m =>
          match Re.group m "emoticon" with
          | Ok s => Some s
          | Raise _ => None
          end
      | None => None
      end
  | None => None
  end.

(** The steps the renderer takes with the extension on a text, from
    [makeExtension] to [handleMatch]: the rule is matched against the text
    the way [markdown.Pattern] does it and the match goes to
    [handleMatch]; the result is the first element made, or nothing when
    the rule does not match. *)
Definition first_image (order : list string -> list string)
    (dict_str : dict string -> string)
    (configs : option (list (string * value))) (text : string)
    (doc : Document) : result (option Element) :=
  ext <- makeExtension configs ;;
  md <- extendMarkdown order ext {| inlinePatterns := [] |} ;;
  match inlinePatterns md with
  | [Emoticon p] =>
      match Re.compile (pattern p) with
      | Some r =>
          match Re.match_wrapped r text with
          | Some m => el <- handleMatch dict_str p m doc ;; Ok (Some el)
          | None => Ok None
          end
      | None => Ok None
      end
  | _ => Ok None
  end.

(** The text of the module's own examples. *)
Definition doctest_text : string :=
  "Some text with a pre-defined emoticon :p.".

End Emoticons.

Import PyStr PostFormatter Py Emoticons.

(** ** Strings *)

Lemma append_empty_r (s : string) : s ++ "" = s.
Proof. induction s as [|c s IH]; simpl; [reflexivity | now rewrite IH]. Qed.

Lemma append_assoc (a b c : string) : (a ++ b) ++ c = a ++ (b ++ c).
Proof. induction a as [|x a IH]; simpl; [reflexivity | now rewrite IH]. Qed.

Lemma split_not_nil (sep : ascii) (s : string) : split sep s <> [].
Proof.
  induction s as [|c s IH]; simpl; [discriminate|].
  destruct (Ascii.eqb c sep); [discriminate|].
  destruct (split sep s); [contradiction | discriminate].
Qed.

Lemma join_cons_char (sep : string) (c : ascii) (x : string) (l : list string) :
  join sep (String c x :: l) = String c (join sep (x :: l)).
Proof. destruct l; reflexivity. Qed.

Lemma join_split (sep : ascii) (s : string) : join (chr sep) (split sep s) = s.
Proof.
  induction s as [|c s IH]; [reflexivity|].
  simpl split. destruct (Ascii.eqb_spec c sep) as [->|Hne].
  - pose proof (split_not_nil sep s) as Hnil.
    destruct (split sep s) as [|x l]; [contradiction|].
    change (join (chr sep) ("" :: x :: l))
      with (String sep (join (chr sep) (x :: l))).
    now rewrite IH.
  - pose proof (split_not_nil sep s) as Hnil.
    destruct (split sep s) as [|x l]; [contradiction|].
    rewrite join_cons_char. now rewrite IH.
Qed.

Lemma replace_app (old : ascii) (new a b : string) :
  replace old new (a ++ b) = replace old new a ++ replace old new b.
Proof.
  induction a as [|c a IH]; simpl; [reflexivity|].
  now rewrite IH, append_assoc.
Qed.

Lemma mem_char_app (c : ascii) (a b : string) :
  mem_char c (a ++ b) = mem_char c a || mem_char c b.
Proof.
  induction a as [|d a IH]; simpl; [reflexivity|].
  now rewrite IH, orb_assoc.
Qed.

Lemma all_chars_app (p : ascii -> bool) (a b : string) :
  all_chars p (a ++ b) = all_chars p a && all_chars p b.
Proof.
  induction a as [|d a IH]; simpl; [reflexivity|].
  now rewrite IH, andb_assoc.
Qed.

(** *** Stripping *)

Lemma lstrip_spec (s : string) :
  exists l, s = l ++ lstrip s /\ all_chars isspace l = true.
Proof.
  induction s as [|c s (l & Heq & Hl)]; simpl.
  - now exists "".
  - destruct (isspace c) eqn:Hc.
    + exists (String c l). simpl. rewrite Hc, Hl. now rewrite <- Heq.
    + now exists "".
Qed.

Lemma lstrip_first (s : string) (c : ascii) :
  first_char (lstrip s) = Some c -> isspace c = false.
Proof.
  induction s as [|d s IH]; simpl; [discriminate|].
  destruct (isspace d) eqn:Hd; [exact IH|].
  simpl. now intros [= <-].
Qed.

Lemma rstrip_spec (s : string) :
  exists r, s = rstrip s ++ r /\ all_chars isspace r = true.
Proof.
  induction s as [|c s (r & Heq & Hr)]; simpl.
  - now exists "".
  - destruct (rstrip s) as [|d t] eqn:Ht.
    + simpl in Heq. subst r. destruct (isspace c) eqn:Hc.
      * exists (String c s). simpl. now rewrite Hc, Hr.
      * now exists s.
    + exists r. simpl. now rewrite Heq at 1.
Qed.

Lemma rstrip_last (s : string) (c : ascii) :
  last_char (rstrip s) = Some c -> isspace c = false.
Proof.
  induction s as [|d s IH]; simpl; [discriminate|].
  destruct (rstrip s) as [|e t] eqn:Ht.
  - destruct (isspace d) eqn:Hd; simpl; [discriminate|]. now intros [= <-].
  - intros H. apply IH. exact H.
Qed.

Lemma rstrip_first (s : string) (c : ascii) :
  first_char (rstrip s) = Some c -> first_char s = Some c.
Proof.
  destruct (rstrip_spec s) as (r & Heq & _).
  destruct (rstrip s) as [|d t]; simpl; [discriminate|].
  intros [= <-]. now rewrite Heq.
Qed.

Lemma strip_spec (s : string) :
  (exists l r, s = l ++ strip s ++ r
     /\ all_chars isspace l = true /\ all_chars isspace r = true)
  /\ (forall c, first_char (strip s) = Some c -> isspace c = false)
  /\ (forall c, last_char (strip s) = Some c -> isspace c = false).
Proof.
  unfold strip. split; [|split].
  - destruct (lstrip_spec s) as (l & Hl & Hsl).
    destruct (rstrip_spec (lstrip s)) as (r & Hr & Hsr).
    exists l, r. repeat split; try assumption.
    now rewrite <- Hr.
  - intros c H. apply (lstrip_first s). now apply rstrip_first.
  - intros c. apply rstrip_last.
Qed.

(** ** The quoted body *)

Lemma join_map_prefix (sep repl x : string) (l : list string) :
  join sep (map (append repl) (x :: l))
  = repl ++ join sep (x :: map (append repl) l).
Proof.
  destruct l as [|y l]; simpl; [reflexivity|].
  now rewrite append_assoc.
Qed.

(** The substitution, line by line: the first line gets the prefix when
    the scan starts at the beginning of a line, every later line gets it. *)
Lemma sub_from_lines (repl : string) (s : string) (prev : option ascii) :
  sub_from repl prev s
  = (if bol prev then repl else "") ++
    join nl (match split LF s with
             | [] => []
             | x :: rest => x :: map (append repl) rest
             end).
Proof.
  revert prev. induction s as [|c s IH]; intros prev.
  - reflexivity.
  - simpl sub_from. f_equal. rewrite IH. simpl split. simpl bol.
    pose proof (split_not_nil LF s) as Hnil.
    destruct (Ascii.eqb c LF) eqn:Hc.
    + apply Ascii.eqb_eq in Hc. subst c.
      destruct (split LF s) as [|x l]; [contradiction|].
      rewrite <- join_map_prefix. reflexivity.
    + destruct (split LF s) as [|x l]; [contradiction|].
      now rewrite join_cons_char.
Qed.

Lemma quote_lines (repl s : string) :
  quote_post_re_sub repl s = join nl (map (append repl) (split LF s)).
Proof.
  unfold quote_post_re_sub. rewrite sub_from_lines. simpl bol.
  pose proof (split_not_nil LF s) as Hnil.
  destruct (split LF s) as [|x l]; [contradiction|].
  now rewrite join_map_prefix.
Qed.

Lemma sub_from_trailing_newline (repl s : string) (prev : option ascii) :
  sub_from repl prev (s ++ nl) = sub_from repl prev s ++ nl ++ repl.
Proof.
  revert prev. induction s as [|c s IH]; intros prev.
  - simpl. rewrite !append_empty_r. reflexivity.
  - simpl. rewrite IH. rewrite !append_assoc. reflexivity.
Qed.

(** ** Entity encoding *)

Lemma escape_app (a b : string) : escape (a ++ b) = escape a ++ escape b.
Proof. unfold escape. now rewrite !replace_app. Qed.

Lemma escape_chr (c : ascii) : escape (chr c) = entity c.
Proof.
  destruct c as [[] [] [] [] [] [] [] []]; reflexivity.
Qed.

Lemma escape_entity_encode (s : string) : escape s = entity_encode s.
Proof.
  induction s as [|c s IH]; [reflexivity|].
  change (String c s) with (chr c ++ s).
  rewrite escape_app, escape_chr, IH. reflexivity.
Qed.

Lemma entity_no_markup (c d : ascii) :
  markup_char d = true -> mem_char d (entity c) = false.
Proof.
  unfold markup_char. intros H.
  repeat (apply orb_true_iff in H; destruct H as [H|H]);
    apply Ascii.eqb_eq in H; subst d;
    destruct c as [[] [] [] [] [] [] [] []]; reflexivity.
Qed.

Lemma escape_no_markup (s : string) (d : ascii) :
  markup_char d = true -> mem_char d (escape s) = false.
Proof.
  intros H. rewrite escape_entity_encode.
  induction s as [|c s IH]; [reflexivity|].
  simpl. now rewrite mem_char_app, entity_no_markup, IH.
Qed.

(** ** Properties of [post_formatter.py] *)

(** C2: [quote_post] returns the bold escaped username, the link to the
    post titled "View quoted post", a colon, a blank line, the quoted body
    and a blank line; for the body "hello" of user "bob" at "/posts/1" the
    result is the string of the specification. *)
Theorem quote_post_result :
  (forall post : Post,
     quote_post post
     = "**" ++ escape (username (user post)) ++ "** [wrote]("
       ++ get_absolute_url post ++ " " ++ chr DQUOTE ++ "View quoted post"
       ++ chr DQUOTE ++ "):" ++ nl ++ nl
       ++ quote_post_re_sub "> " (body post) ++ nl ++ nl)
  /\ quote_post bob_post
     = "**bob** [wrote](/posts/1 " ++ chr DQUOTE ++ "View quoted post"
       ++ chr DQUOTE ++ "):" ++ nl ++ nl ++ "> hello" ++ nl ++ nl.
Proof.
  split; [intros post|]; reflexivity.
Qed.

(** C3: the quoted body in the result of [quote_post] is the body with
    "> " put before each of its lines, the lines being the pieces between
    line feeds; joining the lines again gives the body back, so no content
    and no line break is lost; the body "a\nb" gives "> a\n> b". *)
Theorem quoted_body_prefixes_every_line :
  (forall post : Post,
     quote_post post
     = quote_format (escape (username (user post))) (get_absolute_url post)
         (join nl (map (append "> ") (split LF (body post)))))
  /\ (forall b : string, join nl (split LF b) = b)
  /\ quote_post_re_sub "> " ("a" ++ nl ++ "b") = "> a" ++ nl ++ "> b".
Proof.
  split; [|split].
  - intros post. unfold quote_post. now rewrite quote_lines.
  - intros b. apply join_split.
  - reflexivity.
Qed.

(** C4: the username in the attribution line is the entity encoding of the
    post's username: each of [&], [<], [>], the double quote and the
    apostrophe is replaced by its entity, so none of [<], [>] and the
    quotes is left in it; "<script>" becomes "&lt;script&gt;". *)
Theorem quote_post_escapes_username :
  (forall post : Post,
     exists rest,
       quote_post post = "**" ++ entity_encode (username (user post)) ++ rest)
  /\ (forall (name : string) (c : ascii),
        markup_char c = true -> mem_char c (escape name) = false)
  /\ escape "<script>" = "&lt;script&gt;"
  /\ escape "a&b" = "a&amp;b".
Proof.
  split; [|split; [|split]].
  - intros post. rewrite <- escape_entity_encode.
    unfold quote_post, quote_format. eexists. reflexivity.
  - intros name c. apply escape_no_markup.
  - reflexivity.
  - reflexivity.
Qed.

(** C7: [format_post_body] calls the renderer on its argument with safe
    mode on and returns what it rendered without the white space at its two
    ends: only white space is removed, and the result neither starts nor
    ends with a white space character. *)
Theorem format_post_body_safe_and_trimmed :
  forall (markdown : string -> bool -> string) (body : string),
    format_post_body markdown body = strip (markdown body true)
    /\ (exists l r,
          markdown body true = l ++ format_post_body markdown body ++ r
          /\ all_chars isspace l = true /\ all_chars isspace r = true)
    /\ (forall c, first_char (format_post_body markdown body) = Some c ->
                  isspace c = false)
    /\ (forall c, last_char (format_post_body markdown body) = Some c ->
                  isspace c = false).
Proof.
  intros markdown body. unfold format_post_body.
  split; [reflexivity|]. apply strip_spec.
Qed.

(** C9: a body that ends with a line feed gets one more "> " after that
    line feed, and the empty body is quoted as "> ". *)
Theorem quote_trailing_newline :
  (forall b : string,
     quote_post_re_sub "> " (b ++ nl) = quote_post_re_sub "> " b ++ nl ++ "> ")
  /\ (forall (u : User) (url b : string),
        quote_post {| user := u; body := b ++ nl; get_absolute_url := url |}
        = quote_format (escape (username u)) url
            (quote_post_re_sub "> " b ++ nl ++ "> "))
  /\ quote_post_re_sub "> " ("a" ++ nl) = "> a" ++ nl ++ "> "
  /\ quote_post_re_sub "> " "" = "> ".
Proof.
  split; [|split; [|split]].
  - intros b. apply sub_from_trailing_newline.
  - intros u url b. unfold quote_post. simpl.
    unfold quote_post_re_sub. now rewrite sub_from_trailing_newline.
  - reflexivity.
  - reflexivity.
Qed.

(** ** The emoticon pattern *)

Lemma isalnum_not_special (c : ascii) :
  Re.isalnum c = true ->
  Ascii.eqb c ")" = false /\ Ascii.eqb c Re.BAR = false
  /\ Ascii.eqb c Re.BACKSLASH = false /\ Re.special c = false.
Proof.
  destruct c as [[] [] [] [] [] [] [] []]; cbv; intros H;
    solve [discriminate H | repeat split].
Qed.

(** Reading one escaped character gives the character back. *)
Lemma parse_escape_char (c : ascii) (rest : string) :
  Re.parse_alternatives (Re.escape_char c ++ rest)
  = Re.cons_char c (Re.parse_alternatives rest).
Proof.
  unfold Re.escape_char. destruct (Re.isalnum c) eqn:Halnum.
  - destruct (isalnum_not_special c Halnum) as (H1 & H2 & H3 & H4).
    simpl. now rewrite H1, H2, H3, H4.
  - destruct (Ascii.eqb c Re.NUL) eqn:Hnul.
    + apply Ascii.eqb_eq in Hnul. subst c. reflexivity.
    + change (String Re.BACKSLASH (chr c) ++ rest)
        with (String Re.BACKSLASH (String c rest)).
      simpl. now rewrite Halnum.
Qed.

(** Reading an escaped symbol puts the symbol itself in front of the
    alternative that follows. *)
Lemma parse_escape (s rest a r : string) (alts : list string) :
  Re.parse_alternatives rest = Some (a :: alts, r) ->
  Re.parse_alternatives (Re.escape s ++ rest) = Some ((s ++ a) :: alts, r).
Proof.
  intros Hrest. induction s as [|c s IH]; simpl; [exact Hrest|].
  rewrite append_assoc, parse_escape_char, IH. reflexivity.
Qed.

(** The alternation of a non-empty list of symbols reads back as that
    list, in the same order. *)
Lemma parse_join_escape (x : string) (l : list string) :
  Re.parse_alternatives (join "|" (map Re.escape (x :: l)) ++ ")")
  = Some (x :: l, "").
Proof.
  revert x. induction l as [|y l IH]; intros x.
  - simpl. rewrite (parse_escape x ")" "" "" []); [|reflexivity].
    now rewrite append_empty_r.
  - change (join "|" (map Re.escape (x :: y :: l)))
      with (Re.escape x ++ "|" ++ join "|" (map Re.escape (y :: l))).
    rewrite !append_assoc.
    rewrite (parse_escape x _ "" "" (y :: l)).
    + now rewrite append_empty_r.
    + simpl. change (String "|" ?s) with (String "|" s).
      specialize (IH y). simpl in IH. simpl. rewrite IH. reflexivity.
Qed.

Lemma compile_named_group (body : string) :
  Re.compile ("(?P<emoticon>" ++ body)
  = match Re.parse_alternatives body with
    | Some (alts, "") =>
        Some {| Re.group_name := "emoticon"; Re.alternatives := alts |}
    | _ => None
    end.
Proof. reflexivity. Qed.

Lemma compile_EMOTICON_RE (symbols : list string) :
  Re.compile (EMOTICON_RE symbols)
  = Some {| Re.group_name := "emoticon";
            Re.alternatives := compiled_alternatives symbols |}.
Proof.
  unfold EMOTICON_RE. rewrite compile_named_group.
  destruct symbols as [|x l]; [reflexivity|].
  now rewrite parse_join_escape.
Qed.

(** ** Dictionaries *)

Lemma has_key_get {V : Type} (d : dict V) (k : string) :
  has_key d k = true <-> exists v, dict_get d k = Some v.
Proof.
  unfold has_key, inserted. induction d as [|[k' v'] d IH]; simpl.
  - split; [discriminate | intros [v H]; discriminate].
  - destruct (String.eqb k k'); simpl; [|exact IH].
    split; [eauto | reflexivity].
Qed.

Lemma has_key_get_none {V : Type} (d : dict V) (k : string) :
  has_key d k = false <-> dict_get d k = None.
Proof.
  unfold has_key, inserted. induction d as [|[k' v'] d IH]; simpl.
  - split; reflexivity.
  - destruct (String.eqb k k'); simpl; [|exact IH].
    split; discriminate.
Qed.

Lemma has_key_In {V : Type} (d : dict V) (k : string) :
  has_key d k = true <-> In k (inserted d).
Proof.
  unfold has_key. rewrite existsb_exists. split.
  - intros (x & Hin & Heq). apply String.eqb_eq in Heq. now subst.
  - intros Hin. exists k. split; [assumption | apply String.eqb_refl].
Qed.

Lemma inserted_dict_set {V : Type} (d : dict V) (k : string) (v : V) :
  inserted (dict_set d k v) = if has_key d k then inserted d else (inserted d ++ [k])%list.
Proof.
  unfold has_key, inserted. induction d as [|[k' v'] d IH]; simpl; [reflexivity|].
  destruct (String.eqb_spec k k') as [->|Hne]; simpl; [reflexivity|].
  rewrite IH. now destruct (existsb (String.eqb k) (map fst d)).
Qed.

Lemma dict_get_set {V : Type} (d : dict V) (k k' : string) (v : V) :
  dict_get (dict_set d k v) k'
  = if String.eqb k' k then Some v else dict_get d k'.
Proof.
  induction d as [|[k0 v0] d IH]; simpl.
  - reflexivity.
  - destruct (String.eqb_spec k k0) as [->|Hne]; simpl.
    + now destruct (String.eqb k' k0).
    + rewrite IH. destruct (String.eqb_spec k' k0) as [->|Hne'].
      * destruct (String.eqb_spec k0 k) as [Heq|_]; [now symmetry in Heq|].
        reflexivity.
      * reflexivity.
Qed.

Lemma dict_get_app {V : Type} (d1 d2 : dict V) (k : string) :
  dict_get (d1 ++ d2)%list k
  = match dict_get d1 k with
    | Some v => Some v
    | None => dict_get d2 k
    end.
Proof.
  induction d1 as [|[k0 v0] d1 IH]; simpl; [reflexivity|].
  now destruct (String.eqb k k0).
Qed.

(** ** Construction of the extension *)

(** [set_configs] stops at the first pair whose name is not a key of the
    configuration; otherwise the keys stay and each option holds the last
    value supplied for it, or its old value. *)
Lemma set_configs_spec (pairs : list (string * value)) :
  forall c : dict (value * string),
    match find (fun kv => negb (has_key c (fst kv))) pairs with
    | Some kv => set_configs c pairs = Raise (KeyError (fst kv))
    | None =>
        exists c',
          set_configs c pairs = Ok c'
          /\ inserted c' = inserted c
          /\ forall k,
               dict_get c' k
               = match dict_get (rev pairs) k, dict_get c k with
                 | Some v, Some e => Some (v, snd e)
                 | _, e => e
                 end
    end.
Proof.
  induction pairs as [|[key v] rest IH]; intros c.
  - simpl. exists c. repeat split.
  - simpl find. destruct (has_key c key) eqn:Hkey; simpl negb; cbv iota.
    + destruct (proj1 (has_key_get c key) Hkey) as [entry Hentry].
      simpl set_configs. unfold getitem. rewrite Hentry. simpl bind.
      set (c1 := dict_set c key (v, snd entry)).
      assert (Hkeys : inserted c1 = inserted c).
      { unfold c1. now rewrite inserted_dict_set, Hkey. }
      specialize (IH c1).
      assert (Hfind : find (fun kv => negb (has_key c1 (fst kv))) rest
                      = find (fun kv => negb (has_key c (fst kv))) rest).
      { unfold has_key. now rewrite Hkeys. }
      rewrite Hfind in IH.
      destruct (find (fun kv => negb (has_key c (fst kv))) rest) as [kv|].
      * exact IH.
      * destruct IH as (c' & Hset & Hk & Hget).
        exists c'. split; [exact Hset|]. split; [congruence|].
        intros k. rewrite Hget. simpl rev. rewrite dict_get_app.
        unfold c1. rewrite dict_get_set. simpl dict_get.
        destruct (dict_get (rev rest) k) as [x|].
        -- destruct (String.eqb_spec k key) as [->|Hne].
           ++ now rewrite Hentry.
           ++ reflexivity.
        -- destruct (String.eqb_spec k key) as [->|Hne].
           ++ now rewrite Hentry.
           ++ now destruct (dict_get c k).
    + simpl set_configs. unfold getitem.
      apply has_key_get_none in Hkey. now rewrite Hkey.
Qed.

Lemma has_key_default_config (k : string) :
  has_key default_config k = recognized k.
Proof.
  unfold has_key, recognized. simpl. now rewrite orb_false_r, orb_assoc.
Qed.

Lemma dict_get_In {V : Type} (d : dict V) (k : string) (v : V) :
  dict_get d k = Some v -> In (k, v) d.
Proof.
  induction d as [|[k0 v0] d IH]; simpl; [discriminate|].
  destruct (String.eqb_spec k k0) as [->|Hne].
  - intros [= ->]. now left.
  - intros H. right. now apply IH.
Qed.

Lemma find_pointwise {A : Type} (f g : A -> bool) (l : list A) :
  (forall a, f a = g a) -> find f l = find g l.
Proof.
  intros H. induction l as [|a l IH]; simpl; [reflexivity|].
  now rewrite H, IH.
Qed.

Lemma supplied_recognized (pairs : list (string * value)) (key : string) (v : value) :
  first_unrecognized pairs = None ->
  supplied pairs key = Some v ->
  recognized key = true.
Proof.
  unfold first_unrecognized, supplied. intros Hnone Hsup.
  apply dict_get_In, in_rev in Hsup.
  pose proof (find_none _ _ Hnone _ Hsup) as H. simpl in H.
  now apply negb_false_iff in H.
Qed.

(** The two outcomes of [__init__] on a list of pairs. *)
Lemma init_cases :
  forall pairs : list (string * value),
    match first_unrecognized pairs with
    | Some kv => __init__ (Some pairs) = Raise (KeyError (fst kv))
    | None =>
        exists ext,
          __init__ (Some pairs) = Ok ext
          /\ forall key,
               getConfig ext key
               = match supplied pairs key with
                 | Some v => v
                 | None => getConfig default_extension key
                 end
               /\ description ext key = description default_extension key
    end.
Proof.
  intros pairs. pose proof (set_configs_spec pairs default_config) as H.
  assert (Hfind : find (fun kv => negb (has_key default_config (fst kv))) pairs
                  = first_unrecognized pairs).
  { unfold first_unrecognized. apply find_pointwise. intros kv.
    now rewrite has_key_default_config. }
  rewrite Hfind in H.
  destruct (first_unrecognized pairs) as [kv|] eqn:Hfirst.
  - unfold __init__. now rewrite H.
  - destruct H as (c' & Hset & _ & Hget).
    exists {| config := c' |}. split.
    + unfold __init__. now rewrite Hset.
    + intros key. unfold getConfig, description. simpl config.
      rewrite Hget. fold (supplied pairs key).
      destruct (supplied pairs key) as [v|] eqn:Hsup; [|now split].
      pose proof (supplied_recognized pairs key v Hfirst Hsup) as Hrec.
      rewrite <- has_key_default_config in Hrec.
      apply has_key_get in Hrec. destruct Hrec as [e He].
      rewrite He. now split.
Qed.

Lemma init_ok_getConfig (pairs : list (string * value)) (ext : EmoticonExtension) :
  __init__ (Some pairs) = Ok ext ->
  forall key,
    getConfig ext key
    = match supplied pairs key with
      | Some v => v
      | None => getConfig default_extension key
      end.
Proof.
  intros Hok key. pose proof (init_cases pairs) as H.
  destruct (first_unrecognized pairs) as [kv|].
  - rewrite Hok in H. discriminate.
  - destruct H as (ext' & Hext & Hget). rewrite Hok in Hext.
    injection Hext as <-. apply Hget.
Qed.

(** C10: [__init__] raises [KeyError] for the first pair whose option name
    is none of EMOTICONS, BASE_URL and FILE_EXTENSION; when every name is
    one of the three it succeeds, each option then holds the last value
    supplied for it, an option no pair names keeps its default, and the
    descriptions are untouched. *)
Theorem init_rejects_unknown_option :
  forall pairs : list (string * value),
    match first_unrecognized pairs with
    | Some kv => __init__ (Some pairs) = Raise (KeyError (fst kv))
    | None =>
        exists ext,
          __init__ (Some pairs) = Ok ext
          /\ forall key,
               getConfig ext key
               = match supplied pairs key with
                 | Some v => v
                 | None => getConfig default_extension key
                 end
               /\ description ext key = description default_extension key
    end.
Proof. exact init_cases. Qed.

(** ** Matching *)

Lemma find_first {A : Type} (f : A -> bool) (l : list A) (a : A) :
  find f l = Some a ->
  exists before after,
    l = (before ++ a :: after)%list
    /\ f a = true
    /\ forall b, In b before -> f b = false.
Proof.
  induction l as [|x l IH]; simpl; [discriminate|].
  destruct (f x) eqn:Hx.
  - intros [= <-]. exists [], l. repeat split; [assumption | intros b []].
  - intros H. destruct (IH H) as (before & after & -> & Ha & Hb).
    exists (x :: before), after. repeat split; [assumption|].
    intros b [<-|Hin]; [assumption | now apply Hb].
Qed.

Lemma prefix_empty (a : string) : String.prefix a "" = true -> a = "".
Proof. destruct a; [reflexivity | discriminate]. Qed.

Lemma prefix_substring (a text : string) :
  String.prefix a text = true -> substring 0 (String.length a) text = a.
Proof.
  revert text. induction a as [|c a IH]; intros text.
  - now destruct text.
  - destruct text as [|d text]; simpl; [discriminate|].
    destruct (Ascii.ascii_dec c d) as [->|Hne]; [|discriminate].
    intros H. now rewrite (IH _ H).
Qed.

(** A literal that matches at a position is the text found there. *)
Lemma prefix_skip_substring (a text : string) (pos : nat) :
  String.prefix a (Re.skip pos text) = true ->
  substring pos (String.length a) text = a.
Proof.
  revert text. induction pos as [|pos IH]; intros text.
  - simpl. apply prefix_substring.
  - destruct text as [|d text]; simpl.
    + intros H. apply prefix_empty in H. now subst.
    + apply IH.
Qed.

Lemma match_at_inv (r : Re.Pattern) (text : string) (pos : nat) (m : Re.Match) :
  Re.match_at r text pos = Some m ->
  exists a,
    Re.first_alternative (Re.alternatives r) (Re.skip pos text) = Some a
    /\ m = {| Re.start := pos; Re.groupdict := [(Re.group_name r, a)] |}.
Proof.
  unfold Re.match_at.
  destruct (Re.first_alternative (Re.alternatives r) (Re.skip pos text)) as [a|];
    [|discriminate].
  intros [= <-]. now exists a.
Qed.

(** A match of the compiled emoticon pattern: its group holds the first
    alternative the text starts with at that position. *)
Lemma emoticon_match (symbols : list string) (r : Re.Pattern)
    (text : string) (pos : nat) (m : Re.Match) :
  Re.compile (EMOTICON_RE symbols) = Some r ->
  Re.match_at r text pos = Some m ->
  exists before S after,
    compiled_alternatives symbols = (before ++ S :: after)%list
    /\ Re.group m "emoticon" = Ok S
    /\ String.prefix S (Re.skip pos text) = true
    /\ forall b, In b before -> String.prefix b (Re.skip pos text) = false.
Proof.
  rewrite compile_EMOTICON_RE. intros [= <-] Hm.
  apply match_at_inv in Hm. destruct Hm as (a & Hfirst & ->).
  apply find_first in Hfirst. simpl in Hfirst.
  destruct Hfirst as (before & after & Halts & Ha & Hb).
  exists before, a, after. repeat split; assumption.
Qed.

(** ** Properties of the emoticon extension *)

Lemma In_keys_get {V : Type} (d : dict V) (k : string) :
  In k (inserted d) -> exists v, dict_get d k = Some v.
Proof. intros H. now apply has_key_get, has_key_In. Qed.

Lemma handleMatch_eq (dict_str : dict string -> string)
    (self : EmoticonPattern) (m : Re.Match) (doc : Document) (S : string) :
  Re.group m "emoticon" = Ok S ->
  handleMatch dict_str self m doc
  = bind (image_name (getConfig (emoticons self) "EMOTICONS") S)
      (fun name =>
         Ok (img (str dict_str (getConfig (emoticons self) "BASE_URL")
                  ++ name ++ "."
                  ++ str dict_str (getConfig (emoticons self) "FILE_EXTENSION"))
               S)).
Proof.
  intros Hg. unfold handleMatch. rewrite Hg. simpl bind.
  destruct (image_name (getConfig (emoticons self) "EMOTICONS") S);
    reflexivity.
Qed.

(** C1: when the pattern built from the table matches at a position of a
    text and the matched symbol S is a key of the table, S is the text
    found at that position and [handleMatch] returns an [img] element whose
    [src] is the base URL, the image name of S, a dot and the file
    extension put together unchanged, and whose [alt] is S. *)
Theorem handleMatch_returns_image :
  forall (order : list string -> list string)
         (dict_str : dict string -> string) (ext : EmoticonExtension)
         (d : dict string) (base fext : string)
         (r : Re.Pattern) (text : string) (pos : nat) (m : Re.Match)
         (doc : Document) (S : string),
    getConfig ext "EMOTICONS" = VDict d ->
    getConfig ext "BASE_URL" = VStr base ->
    getConfig ext "FILE_EXTENSION" = VStr fext ->
    Re.compile (EMOTICON_RE (keys order d)) = Some r ->
    Re.match_at r text pos = Some m ->
    Re.group m "emoticon" = Ok S ->
    In S (inserted d) ->
    exists name,
      dict_get d S = Some name
      /\ substring pos (String.length S) text = S
      /\ handleMatch dict_str
           {| pattern := EMOTICON_RE (keys order d); emoticons := ext |} m doc
         = Ok (img (base ++ name ++ "." ++ fext) S).
Proof.
  intros order dict_str ext d base fext r text pos m doc S
         Hd Hb Hf Hr Hm Hg Hin.
  destruct (In_keys_get d S Hin) as [name Hname].
  exists name. split; [exact Hname|]. split.
  - destruct (emoticon_match _ _ _ _ _ Hr Hm) as (before & S' & after & _ & Hg' & Hpre & _).
    rewrite Hg in Hg'. injection Hg' as <-.
    now apply prefix_skip_substring.
  - rewrite (handleMatch_eq dict_str _ m doc S Hg). simpl emoticons.
    rewrite Hd, Hb, Hf. unfold image_name, getitem. now rewrite Hname.
Qed.

Lemma handleMatch_returns_image_witness :
  exists name,
    dict_get default_emoticons ":p" = Some name
    /\ substring 3 2 "hi :p." = ":p"
    /\ handleMatch (fun _ => "{}")
         {| pattern := EMOTICON_RE (keys (fun l => l) default_emoticons);
            emoticons := default_extension |}
         {| Re.start := 3; Re.groupdict := [("emoticon", ":p")] |}
         Build_Document
       = Ok (img ("" ++ name ++ "." ++ "gif") ":p").
Proof.
  apply (handleMatch_returns_image (fun l => l) (fun _ => "{}")
           default_extension default_emoticons "" "gif"
           {| Re.group_name := "emoticon";
              Re.alternatives := keys (fun l => l) default_emoticons |}
           "hi :p." 3
           {| Re.start := 3; Re.groupdict := [("emoticon", ":p")] |}
           Build_Document ":p");
    try reflexivity.
  simpl. do 10 right. left. reflexivity.
Defined.

(** C8: for two configurations that agree on every option other than
    BASE_URL and FILE_EXTENSION, [handleMatch] on the same match fails in
    the same way or returns two elements with the same tag and the same
    value for every attribute other than [src]; [alt] is the matched symbol
    in both. *)
Theorem handleMatch_base_url_changes_src_only :
  forall (dict_str : dict string -> string) (p1 p2 : EmoticonPattern)
         (m : Re.Match) (doc : Document),
    (forall key, key <> "BASE_URL" -> key <> "FILE_EXTENSION" ->
                 getConfig (emoticons p1) key = getConfig (emoticons p2) key) ->
    match handleMatch dict_str p1 m doc, handleMatch dict_str p2 m doc with
    | Ok e1, Ok e2 =>
        tagName e1 = tagName e2
        /\ inserted (attributes e1) = inserted (attributes e2)
        /\ (forall a, a <> "src" -> getAttribute e1 a = getAttribute e2 a)
        /\ exists S, Re.group m "emoticon" = Ok S
                     /\ getAttribute e1 "alt" = Some S
                     /\ getAttribute e2 "alt" = Some S
    | Raise x1, Raise x2 => x1 = x2
    | _, _ => False
    end.
Proof.
  intros dict_str p1 p2 m doc Hsame.
  assert (Htable : getConfig (emoticons p1) "EMOTICONS"
                   = getConfig (emoticons p2) "EMOTICONS")
    by (apply Hsame; discriminate).
  destruct (Re.group m "emoticon") as [S|x] eqn:Hg.
  - rewrite !(handleMatch_eq dict_str _ m doc S Hg), Htable.
    destruct (image_name (getConfig (emoticons p2) "EMOTICONS") S) as [name|x];
      simpl bind; [|reflexivity].
    split; [reflexivity|]. split; [reflexivity|]. split.
    + intros a Ha. unfold getAttribute, img. simpl.
      destruct (String.eqb_spec a "src") as [->|_]; [contradiction|].
      reflexivity.
    + exists S. repeat split.
  - unfold handleMatch. rewrite Hg. reflexivity.
Qed.

Lemma handleMatch_base_url_changes_src_only_witness :
  match handleMatch (fun _ => "{}")
          {| pattern := EMOTICON_RE (keys (fun l => l) default_emoticons);
             emoticons := default_extension |}
          {| Re.start := 0; Re.groupdict := [("emoticon", ":p")] |} Build_Document,
        handleMatch (fun _ => "{}")
          {| pattern := EMOTICON_RE (keys (fun l => l) default_emoticons);
             emoticons :=
               {| config :=
                    dict_set (dict_set default_config "BASE_URL"
                                (VStr "/emoticons/", ""))
                      "FILE_EXTENSION" (VStr "jpg", "") |} |}
          {| Re.start := 0; Re.groupdict := [("emoticon", ":p")] |} Build_Document
  with
  | Ok e1, Ok e2 =>
      tagName e1 = tagName e2
      /\ inserted (attributes e1) = inserted (attributes e2)
      /\ (forall a, a <> "src" -> getAttribute e1 a = getAttribute e2 a)
      /\ exists S, Re.group {| Re.start := 0;
                               Re.groupdict := [("emoticon", ":p")] |}
                     "emoticon" = Ok S
                   /\ getAttribute e1 "alt" = Some S
                   /\ getAttribute e2 "alt" = Some S
  | Raise x1, Raise x2 => x1 = x2
  | _, _ => False
  end.
Proof.
  apply (handleMatch_base_url_changes_src_only (fun _ => "{}")).
  intros key Hb Hf. unfold getConfig. simpl.
  destruct (String.eqb_spec key "EMOTICONS") as [->|_]; [reflexivity|].
  destruct (String.eqb_spec key "BASE_URL") as [->|_]; [contradiction|].
  destruct (String.eqb_spec key "FILE_EXTENSION") as [->|_]; [contradiction|].
  reflexivity.
Defined.

Lemma extendMarkdown_eq (order : list string -> list string)
    (self : EmoticonExtension) (d : dict string) (md : Markdown) :
  getConfig self "EMOTICONS" = VDict d ->
  extendMarkdown order self md
  = Ok {| inlinePatterns :=
            (inlinePatterns md ++
             [Emoticon {| pattern := EMOTICON_RE (keys order d);
                          emoticons := self |}])%list |}.
Proof. intros H. unfold extendMarkdown. now rewrite H. Qed.




Lemma default_symbols_nonempty (s : string) :
  In s (inserted default_emoticons) -> s <> "".
Proof.
  simpl. intros H.
  repeat (destruct H as [<-|H]; [discriminate|]). destruct H.
Qed.

(** With the symbols of the default table listed in the order in which
    it is written, every symbol is matched as itself, [:ph34r:] included,
    which starts with [:p]. *)
Lemma default_symbols_match_themselves (s : string) :
  In s (inserted default_emoticons) ->
  matched_symbol (fun l => l) default_emoticons s 0 = Some s.
Proof.
  simpl. intros H.
  repeat (destruct H as [<-|H]; [reflexivity|]). destruct H.
Qed.

(** The alternatives of a table's pattern are the same symbols in
    whichever order the keys are listed. *)
Lemma In_compiled_alternatives (order : list string -> list string)
    (d : dict string) (S : string) :
  lists_all_keys order ->
  In S (compiled_alternatives (keys order d)) ->
  In S (compiled_alternatives (inserted d)).
Proof.
  intros Horder. unfold keys. pose proof (Horder (inserted d)) as Hperm.
  destruct (inserted d) as [|k ks].
  - apply Permutation_nil in Hperm. now rewrite Hperm.
  - destruct (order (k :: ks)) as [|k' ks'] eqn:Ho.
    + apply Permutation_sym, Permutation_nil in Hperm. discriminate.
    + simpl. apply (Permutation_in _ (Permutation_sym Hperm)).
Qed.

(** C6: when the pairs supply a mapping for EMOTICONS, the extension holds
    that mapping in place of the default table: the pattern is built from
    its keys alone, a match is one of its keys (the empty string when the
    mapping is empty), never a default symbol the mapping leaves out, and
    the image name is looked up in the mapping. *)
Theorem custom_emoticons_replace_default_table :
  forall (order : list string -> list string)
         (dict_str : dict string -> string) (pairs : list (string * value))
         (d : dict string) (ext : EmoticonExtension) (md : Markdown)
         (doc : Document),
    lists_all_keys order ->
    __init__ (Some pairs) = Ok ext ->
    supplied pairs "EMOTICONS" = Some (VDict d) ->
    getConfig ext "EMOTICONS" = VDict d
    /\ extendMarkdown order ext md
       = Ok {| inlinePatterns :=
                 (inlinePatterns md ++
                  [Emoticon {| pattern := EMOTICON_RE (keys order d);
                               emoticons := ext |}])%list |}
    /\ forall (r : Re.Pattern) (text : string) (pos : nat) (m : Re.Match)
              (S : string),
         Re.compile (EMOTICON_RE (keys order d)) = Some r ->
         Re.match_at r text pos = Some m ->
         Re.group m "emoticon" = Ok S ->
         In S (compiled_alternatives (inserted d))
         /\ (forall s, In s (inserted default_emoticons) ->
                       ~ In s (inserted d) -> S <> s)
         /\ handleMatch dict_str
              {| pattern := EMOTICON_RE (keys order d); emoticons := ext |} m doc
            = bind (getitem d S)
                (fun name =>
                   Ok (img (str dict_str (getConfig ext "BASE_URL")
                            ++ name ++ "."
                            ++ str dict_str (getConfig ext "FILE_EXTENSION"))
                         S)).
Proof.
  intros order dict_str pairs d ext md doc Horder Hok Hsup.
  assert (Hd : getConfig ext "EMOTICONS" = VDict d).
  { rewrite (init_ok_getConfig pairs ext Hok). now rewrite Hsup. }
  split; [exact Hd|]. split; [now apply extendMarkdown_eq|].
  intros r text pos m S Hr Hm Hg.
  destruct (emoticon_match _ _ _ _ _ Hr Hm)
    as (before & S' & after & Halts & Hg' & _ & _).
  rewrite Hg in Hg'. injection Hg' as <-.
  assert (Hin : In S (compiled_alternatives (inserted d))).
  { apply (In_compiled_alternatives order d S Horder).
    rewrite Halts. apply in_or_app. right. now left. }
  split; [exact Hin|]. split.
  - intros s Hdefault Hnot ->.
    destruct (inserted d) as [|k ks] eqn:Hkeys.
    + simpl in Hin. destruct Hin as [<-|[]].
      now apply (default_symbols_nonempty "").
    + now apply Hnot.
  - rewrite (handleMatch_eq dict_str _ m doc S Hg). simpl emoticons.
    now rewrite Hd.
Qed.

Lemma custom_emoticons_replace_default_table_witness :
  getConfig
    {| config :=
         dict_set default_config "EMOTICONS"
           (VDict [(":p", "cheeky")],
            "A mapping from emoticon symbols to image names.") |}
    "EMOTICONS"
  = VDict [(":p", "cheeky")].
Proof.
  apply (custom_emoticons_replace_default_table (fun l => l)
           (fun _ => "{}")
           [("EMOTICONS", VDict [(":p", "cheeky")])]
           [(":p", "cheeky")]
           {| config :=
                dict_set default_config "EMOTICONS"
                  (VDict [(":p", "cheeky")],
                   "A mapping from emoticon symbols to image names.") |}
           {| inlinePatterns := [] |} Build_Document);
    try reflexivity.
  intros l. apply Permutation_refl.
Defined.

(** ** More on the quoted body *)

Lemma length_append (a b : string) :
  String.length (a ++ b) = String.length a + String.length b.
Proof. induction a as [|c a IH]; simpl; [reflexivity | now rewrite IH]. Qed.

Lemma append_cancel_l (p a b : string) : p ++ a = p ++ b -> a = b.
Proof.
  induction p as [|c p IH]; simpl; [trivial|].
  intros [= H]. now apply IH.
Qed.

Lemma split_pieces_no_sep (sep : ascii) (s : string) :
  Forall (fun x => mem_char sep x = false) (split sep s).
Proof.
  induction s as [|c s IH]; simpl.
  - now constructor.
  - destruct (Ascii.eqb c sep) eqn:Hc.
    + now constructor.
    + destruct (split sep s) as [|x l].
      * constructor; [|constructor]. simpl.
        now rewrite Ascii.eqb_sym, Hc.
      * inversion IH; subst. constructor; [|assumption].
        simpl. now rewrite Ascii.eqb_sym, Hc.
Qed.

Lemma split_no_sep (sep : ascii) (x : string) :
  mem_char sep x = false -> split sep x = [x].
Proof.
  induction x as [|c x IH]; simpl; [reflexivity|].
  intros H. apply orb_false_iff in H. destruct H as [Hc Hx].
  rewrite Ascii.eqb_sym, Hc, (IH Hx). reflexivity.
Qed.

Lemma split_app_sep (sep : ascii) (x rest : string) :
  mem_char sep x = false ->
  split sep (x ++ String sep rest) = x :: split sep rest.
Proof.
  induction x as [|c x IH]; simpl.
  - now rewrite Ascii.eqb_refl.
  - intros H. apply orb_false_iff in H. destruct H as [Hc Hx].
    rewrite Ascii.eqb_sym, Hc, (IH Hx). reflexivity.
Qed.

(** Splitting what was joined gives the pieces back when none of them
    holds the separator. *)
Lemma split_join (sep : ascii) (l : list string) :
  l <> [] ->
  Forall (fun x => mem_char sep x = false) l ->
  split sep (join (chr sep) l) = l.
Proof.
  induction l as [|x l IH]; [contradiction|].
  intros _ Hall. inversion Hall as [|? ? Hx Hl]; subst.
  destruct l as [|y l].
  - simpl. now apply split_no_sep.
  - change (join (chr sep) (x :: y :: l))
      with (x ++ String sep (join (chr sep) (y :: l))).
    rewrite (split_app_sep sep x _ Hx). f_equal.
    apply IH; [discriminate | assumption].
Qed.

Lemma quoted_lines (repl b : string) :
  mem_char LF repl = false ->
  split LF (quote_post_re_sub repl b) = map (append repl) (split LF b).
Proof.
  intros Hrepl. rewrite quote_lines. apply (split_join LF).
  - pose proof (split_not_nil LF b). now destruct (split LF b).
  - apply Forall_map. eapply Forall_impl; [|apply split_pieces_no_sep].
    intros x Hx. simpl. now rewrite mem_char_app, Hrepl, Hx.
Qed.

Lemma quote_twice (r1 r2 b : string) :
  mem_char LF r2 = false ->
  quote_post_re_sub r1 (quote_post_re_sub r2 b)
  = quote_post_re_sub (r1 ++ r2) b.
Proof.
  intros H2. rewrite (quote_lines r1), (quoted_lines r2 b H2), map_map.
  rewrite (quote_lines (r1 ++ r2)). f_equal. apply map_ext.
  intros x. now rewrite append_assoc.
Qed.

Lemma sub_from_length (repl s : string) (prev : option ascii) :
  String.length (sub_from repl prev s) + String.length repl
  = (if bol prev then String.length repl else 0) + String.length s
    + String.length repl * List.length (split LF s).
Proof.
  revert prev. induction s as [|c s IH]; intros prev.
  - simpl. rewrite length_append. destruct (bol prev); simpl; lia.
  - simpl sub_from. rewrite length_append. simpl String.length.
    specialize (IH (Some c)). simpl bol in IH. simpl split.
    pose proof (split_not_nil LF s) as Hnil.
    destruct (Ascii.eqb c LF).
    + simpl List.length. destruct (bol prev); simpl String.length; lia.
    + destruct (split LF s) as [|x l]; [contradiction|].
      simpl List.length in *. destruct (bol prev); simpl String.length; lia.
Qed.

Lemma sub_from_injective (repl a b : string) (prev : option ascii) :
  sub_from repl prev a = sub_from repl prev b -> a = b.
Proof.
  revert b prev. induction a as [|c a IH]; intros b prev H;
    destruct b as [|d b]; simpl in H; apply append_cancel_l in H.
  - reflexivity.
  - discriminate.
  - discriminate.
  - injection H as -> H. f_equal. now apply (IH b (Some d)).
Qed.

Lemma append_cancel_r (a b t : string) : a ++ t = b ++ t -> a = b.
Proof.
  revert b. induction a as [|c a IH]; intros [|d b] H; simpl in H.
  - reflexivity.
  - apply (f_equal String.length) in H. simpl in H.
    rewrite length_append in H. lia.
  - apply (f_equal String.length) in H. simpl in H.
    rewrite length_append in H. lia.
  - injection H as -> H. f_equal. now apply IH.
Qed.

(** ** More on entity encoding *)

Lemma entity_plain (c : ascii) : plain_char c = true -> entity c = chr c.
Proof.
  unfold plain_char, markup_char, entity. intros H.
  apply negb_true_iff in H.
  apply orb_false_iff in H. destruct H as [H1 H].
  apply orb_false_iff in H. destruct H as [H H5].
  apply orb_false_iff in H. destruct H as [H H4].
  apply orb_false_iff in H. destruct H as [H2 H3].
  now rewrite H1, H2, H3, H4, H5.
Qed.

Lemma escape_plain (s : string) :
  all_chars plain_char s = true -> escape s = s.
Proof.
  rewrite escape_entity_encode.
  induction s as [|c s IH]; simpl; [reflexivity|].
  intros H. apply andb_true_iff in H. destruct H as [Hc Hs].
  now rewrite (entity_plain c Hc), (IH Hs).
Qed.

Lemma entity_cases (c : ascii) :
  (c = "&"%char /\ entity c = "&amp;")
  \/ (c = "<"%char /\ entity c = "&lt;")
  \/ (c = ">"%char /\ entity c = "&gt;")
  \/ (c = DQUOTE /\ entity c = "&quot;")
  \/ (c = "'"%char /\ entity c = "&#39;")
  \/ (c <> "&"%char /\ entity c = chr c).
Proof.
  unfold entity.
  destruct (Ascii.eqb_spec c "&"); [subst; auto|].
  destruct (Ascii.eqb_spec c "<"); [subst; auto|].
  destruct (Ascii.eqb_spec c ">"); [subst; auto 6|].
  destruct (Ascii.eqb_spec c DQUOTE); [subst; auto 7|].
  destruct (Ascii.eqb_spec c "'"); [subst; auto 8|].
  auto 10.
Qed.

Lemma entity_encode_injective (a b : string) :
  entity_encode a = entity_encode b -> a = b.
Proof.
  revert b. induction a as [|c a IH]; intros [|d b] H; simpl in H.
  - reflexivity.
  - destruct (entity_cases d) as [[_ E]|[[_ E]|[[_ E]|[[_ E]|[[_ E]|[_ E]]]]]];
      rewrite E in H; discriminate.
  - destruct (entity_cases c) as [[_ E]|[[_ E]|[[_ E]|[[_ E]|[[_ E]|[_ E]]]]]];
      rewrite E in H; discriminate.
  - destruct (entity_cases c) as [[Hc E]|[[Hc E]|[[Hc E]|[[Hc E]|[[Hc E]|[Hc E]]]]]];
      destruct (entity_cases d) as [[Hd F]|[[Hd F]|[[Hd F]|[[Hd F]|[[Hd F]|[Hd F]]]]]];
      rewrite E, F in H; simpl in H; subst;
      try discriminate H;
      try (injection H as H; f_equal; now apply IH);
      try (injection H as Hx H; subst; try contradiction;
           f_equal; now apply IH);
      try (injection H as Hx H; symmetry in Hx; contradiction).
Qed.

(** ** More on stripping *)

Lemma lstrip_all_space (s : string) :
  all_chars isspace s = true -> lstrip s = "".
Proof.
  induction s as [|c s IH]; simpl; [reflexivity|].
  intros H. apply andb_true_iff in H. destruct H as [Hc Hs].
  now rewrite Hc, IH.
Qed.

Lemma rstrip_all_space (s : string) :
  all_chars isspace s = true -> rstrip s = "".
Proof.
  induction s as [|c s IH]; simpl; [reflexivity|].
  intros H. apply andb_true_iff in H. destruct H as [Hc Hs].
  now rewrite (IH Hs), Hc.
Qed.

Lemma lstrip_space_app (l s : string) :
  all_chars isspace l = true -> lstrip (l ++ s) = lstrip s.
Proof.
  induction l as [|c l IH]; simpl; [reflexivity|].
  intros H. apply andb_true_iff in H. destruct H as [Hc Hl].
  now rewrite Hc, IH.
Qed.

Lemma rstrip_app_space (s r : string) :
  all_chars isspace r = true -> rstrip (s ++ r) = rstrip s.
Proof.
  intros Hr. induction s as [|c s IH]; simpl.
  - now apply rstrip_all_space.
  - now rewrite IH.
Qed.

Lemma lstrip_app (s r : string) :
  lstrip (s ++ r)
  = match lstrip s with
    | "" => lstrip r
    | t => t ++ r
    end.
Proof.
  induction s as [|c s IH]; simpl.
  - now destruct (lstrip r).
  - destruct (isspace c); [exact IH | reflexivity].
Qed.

(** White space around a string does not change what [strip] returns. *)
Lemma strip_padded (l s r : string) :
  all_chars isspace l = true ->
  all_chars isspace r = true ->
  strip (l ++ s ++ r) = strip s.
Proof.
  intros Hl Hr. unfold strip.
  rewrite (lstrip_space_app l _ Hl), lstrip_app.
  destruct (lstrip s) as [|c t] eqn:Hs.
  - now rewrite (lstrip_all_space r Hr).
  - now rewrite (rstrip_app_space _ r Hr).
Qed.

Lemma strip_idempotent (s : string) : strip (strip s) = strip s.
Proof.
  destruct (strip_spec s) as [(l & r & Heq & Hl & Hr) _].
  rewrite Heq at 2. now rewrite strip_padded.
Qed.

(** ** Further properties of [post_formatter.py] *)

(** X1: the quoted body has as many lines as the body, each line of it is
    "> " followed by the line of the body at that place, and it is longer
    than the body by two characters for each line. *)
Theorem quoted_body_line_by_line :
  forall b : string,
    split LF (quote_post_re_sub "> " b) = map (append "> ") (split LF b)
    /\ List.length (split LF (quote_post_re_sub "> " b))
       = List.length (split LF b)
    /\ String.length (quote_post_re_sub "> " b)
       = String.length b + 2 * List.length (split LF b).
Proof.
  intros b.
  assert (H : split LF (quote_post_re_sub "> " b)
              = map (append "> ") (split LF b))
    by (now apply quoted_lines).
  split; [exact H|]. split.
  - now rewrite H, length_map.
  - pose proof (sub_from_length "> " b None) as Hlen.
    unfold quote_post_re_sub. simpl in Hlen. lia.
Qed.

(** X2: quoting a quoted body is quoting the body once with "> > ": each
    level of quotation adds one marker to every line. *)
Theorem quote_of_quote :
  forall b : string,
    quote_post_re_sub "> " (quote_post_re_sub "> " b)
    = quote_post_re_sub "> > " b
    /\ split LF (quote_post_re_sub "> " (quote_post_re_sub "> " b))
       = map (append "> > ") (split LF b).
Proof.
  intros b.
  assert (H : quote_post_re_sub "> " (quote_post_re_sub "> " b)
              = quote_post_re_sub "> > " b)
    by (now apply (quote_twice "> " "> ")).
  split; [exact H|]. rewrite H. now apply quoted_lines.
Qed.

(** X3: two posts of the same user at the same URL that are quoted to the
    same string have the same body: quoting loses nothing of the body. *)
Theorem quote_post_body_recoverable :
  forall p1 p2 : Post,
    username (user p1) = username (user p2) ->
    get_absolute_url p1 = get_absolute_url p2 ->
    quote_post p1 = quote_post p2 ->
    body p1 = body p2.
Proof.
  intros p1 p2 Hu Hl H. unfold quote_post, quote_format in H.
  rewrite Hu, Hl in H.
  repeat (apply append_cancel_l in H).
  apply append_cancel_r in H.
  now apply (sub_from_injective "> " _ _ None).
Qed.

Lemma quote_post_body_recoverable_witness :
  body bob_post = body bob_post.
Proof.
  apply (quote_post_body_recoverable bob_post bob_post); reflexivity.
Defined.

(** X4: a username made of characters other than [&], [<], [>] and the
    two quotes stands in the attribution line as it is. *)
Theorem quote_post_plain_username :
  forall post : Post,
    all_chars plain_char (username (user post)) = true ->
    quote_post post
    = quote_format (username (user post)) (get_absolute_url post)
        (quote_post_re_sub "> " (body post)).
Proof.
  intros post H. unfold quote_post. now rewrite (escape_plain _ H).
Qed.

Lemma quote_post_plain_username_witness :
  quote_post bob_post
  = quote_format (username (user bob_post)) (get_absolute_url bob_post)
      (quote_post_re_sub "> " (body bob_post)).
Proof.
  apply (quote_post_plain_username bob_post). reflexivity.
Defined.

(** X5: two posts at the same URL with the same body that are quoted to
    the same string have the same username: escaping never makes two
    names alike. *)
Theorem quote_post_username_recoverable :
  forall p1 p2 : Post,
    get_absolute_url p1 = get_absolute_url p2 ->
    body p1 = body p2 ->
    quote_post p1 = quote_post p2 ->
    username (user p1) = username (user p2).
Proof.
  intros p1 p2 Hl Hb H. unfold quote_post, quote_format in H.
  rewrite Hl, Hb in H. apply append_cancel_l in H.
  apply append_cancel_r in H.
  rewrite !escape_entity_encode in H.
  now apply entity_encode_injective.
Qed.

Lemma quote_post_username_recoverable_witness :
  username (user bob_post) = username (user bob_post).
Proof.
  apply (quote_post_username_recoverable bob_post bob_post); reflexivity.
Defined.

(** X6: [format_post_body] gives the same result for two renderers whose
    outputs differ only in white space at the two ends, gives the empty
    string when the rendering is white space only, and stripping its
    result again changes nothing. *)
Theorem format_post_body_ignores_padding :
  forall (markdown1 markdown2 : string -> bool -> string)
         (body l r : string),
    all_chars isspace l = true ->
    all_chars isspace r = true ->
    markdown2 body true = l ++ markdown1 body true ++ r ->
    format_post_body markdown2 body = format_post_body markdown1 body
    /\ (all_chars isspace (markdown1 body true) = true ->
        format_post_body markdown1 body = "")
    /\ strip (format_post_body markdown1 body)
       = format_post_body markdown1 body.
Proof.
  intros markdown1 markdown2 body l r Hl Hr Heq. unfold format_post_body.
  split; [|split].
  - rewrite Heq. now apply strip_padded.
  - intros Hws. unfold strip. now rewrite (lstrip_all_space _ Hws).
  - apply strip_idempotent.
Qed.

Lemma format_post_body_ignores_padding_witness :
  format_post_body (fun b _ => " " ++ b ++ nl) "<p>hi</p>"
  = format_post_body (fun b _ => b) "<p>hi</p>".
Proof.
  apply (format_post_body_ignores_padding
           (fun b _ => b) (fun b _ => " " ++ b ++ nl) "<p>hi</p>" " " nl);
    reflexivity.
Defined.

(** ** From the configuration to the element *)

Lemma first_image_eq (order : list string -> list string)
    (dict_str : dict string -> string)
    (pairs : list (string * value)) (ext : EmoticonExtension)
    (d : dict string) (text : string) (doc : Document) :
  __init__ (Some pairs) = Ok ext ->
  getConfig ext "EMOTICONS" = VDict d ->
  first_image order dict_str (Some pairs) text doc
  = match Re.match_wrapped
            {| Re.group_name := "emoticon";
               Re.alternatives := compiled_alternatives (keys order d) |}
            text with
    | Some m =>
        bind (handleMatch dict_str
                {| pattern := EMOTICON_RE (keys order d); emoticons := ext |}
                m doc)
          (fun el => Ok (Some el))
    | None => Ok None
    end.
Proof.
  intros Hok Hd. unfold first_image, makeExtension. rewrite Hok.
  simpl bind. rewrite (extendMarkdown_eq order ext d _ Hd).
  cbn [bind inlinePatterns app pattern].
  now rewrite compile_EMOTICON_RE.
Qed.

Lemma find_none_all {A : Type} (f : A -> bool) (l : list A) :
  find f l = None <-> forall x, In x l -> f x = false.
Proof.
  split; [apply find_none|].
  induction l as [|a l IH]; simpl; [reflexivity|].
  intros H. rewrite (H a (or_introl eq_refl)). apply IH.
  intros x Hx. apply H. now right.
Qed.

Lemma skip_empty (n : nat) : Re.skip n "" = "".
Proof. now destruct n. Qed.

Lemma match_last_from_none (r : Re.Pattern) (s : string) (pos : nat) :
  Re.match_last_from r pos s = None ->
  forall n, Re.first_alternative (Re.alternatives r) (Re.skip n s) = None.
Proof.
  revert pos. induction s as [|c s IH]; intros pos; simpl.
  - destruct (Re.first_alternative (Re.alternatives r) "") eqn:Ha;
      [discriminate|].
    intros _ n. now rewrite skip_empty.
  - destruct (Re.match_last_from r (S pos) s) eqn:Hlast; [discriminate|].
    destruct (Re.first_alternative (Re.alternatives r) (String c s)) eqn:Ha;
      [discriminate|].
    intros _ [|n]; [exact Ha|]. simpl. now apply (IH (S pos)).
Qed.

(** What the wrapped pattern finds is a match of the rule's own pattern
    at the position it reports, and at no later position of the text does
    an alternative match. *)
Lemma match_last_from_inv (r : Re.Pattern) (s : string) (pos : nat) (m : Re.Match) :
  Re.match_last_from r pos s = Some m ->
  exists n a,
    Re.start m = pos + n
    /\ Re.groupdict m = [(Re.group_name r, a)]
    /\ Re.first_alternative (Re.alternatives r) (Re.skip n s) = Some a
    /\ forall n', n < n' -> n' <= String.length s ->
          Re.first_alternative (Re.alternatives r) (Re.skip n' s) = None.
Proof.
  revert pos m. induction s as [|c s IH]; intros pos m; simpl.
  - destruct (Re.first_alternative (Re.alternatives r) "") as [a|] eqn:Ha;
      [|discriminate].
    intros [= <-]. exists 0, a. simpl. repeat split; [lia | assumption |].
    intros n' H1 H2. lia.
  - destruct (Re.match_last_from r (S pos) s) as [m'|] eqn:Hlast.
    + intros [= <-]. destruct (IH _ _ Hlast) as (n & a & Hn & Hg & Ha & Hr).
      exists (S n), a. simpl. repeat split; [lia | assumption | assumption |].
      intros [|n'] H1 H2; [lia|]. simpl. apply Hr; lia.
    + destruct (Re.first_alternative (Re.alternatives r) (String c s))
        as [a|] eqn:Ha; [|discriminate].
      intros [= <-]. exists 0, a. simpl. repeat split; [lia | assumption |].
      intros [|n'] H1 H2; [lia|]. simpl.
      apply (match_last_from_none r s (S pos) Hlast).
Qed.

(** An alternative that matches everywhere is found where the text
    ends. *)
Lemma match_last_from_everywhere (r : Re.Pattern) (a : string) (s : string) (pos : nat) :
  (forall t, Re.first_alternative (Re.alternatives r) t = Some a) ->
  Re.match_last_from r pos s
  = Some {| Re.start := pos + String.length s;
            Re.groupdict := [(Re.group_name r, a)] |}.
Proof.
  intros Ha. revert pos. induction s as [|c s IH]; intros pos; simpl.
  - rewrite Ha. now rewrite Nat.add_0_r.
  - rewrite IH. do 2 f_equal. lia.
Qed.

Lemma filter_at_most_one {A : Type} (f : A -> bool) (l : list A) (x y : A) :
  List.length (filter f l) <= 1 ->
  In x l -> f x = true -> In y l -> f y = true -> x = y.
Proof.
  intros Hlen Hx Hfx Hy Hfy.
  assert (Hx' : In x (filter f l)) by (now apply filter_In).
  assert (Hy' : In y (filter f l)) by (now apply filter_In).
  destruct (filter f l) as [|u [|v t]]; simpl in *; try lia; intuition congruence.
Qed.

Lemma find_Permutation_unique {A : Type} (f : A -> bool) (l l' : list A) :
  Permutation l l' ->
  List.length (filter f l) <= 1 ->
  find f l' = find f l.
Proof.
  intros Hperm Hlen.
  destruct (find f l) as [x|] eqn:Hl; destruct (find f l') as [y|] eqn:Hl'.
  - apply find_some in Hl, Hl'. destruct Hl as [Hx Hfx], Hl' as [Hy Hfy].
    f_equal. apply (filter_at_most_one f l y x Hlen); try assumption.
    now apply (Permutation_in _ (Permutation_sym Hperm)).
  - apply find_some in Hl. destruct Hl as [Hx Hfx].
    pose proof (find_none _ _ Hl' x (Permutation_in _ Hperm Hx)). congruence.
  - apply find_some in Hl'. destruct Hl' as [Hy Hfy].
    pose proof (find_none _ _ Hl y
                  (Permutation_in _ (Permutation_sym Hperm) Hy)). congruence.
  - reflexivity.
Qed.

(** On a text where no two alternatives match at the same position, the
    order of the alternatives does not matter. *)
Lemma match_last_from_Permutation (name : string) (l l' : list string)
    (s : string) (pos : nat) :
  Permutation l l' ->
  Re.unambiguous l s = true ->
  Re.match_last_from {| Re.group_name := name; Re.alternatives := l' |} pos s
  = Re.match_last_from {| Re.group_name := name; Re.alternatives := l |} pos s.
Proof.
  intros Hperm. revert pos. induction s as [|c s IH]; intros pos Hun;
    cbn [Re.unambiguous] in Hun; apply andb_true_iff in Hun;
    destruct Hun as [Hhere Hrest]; apply Nat.leb_le in Hhere;
    cbn [Re.match_last_from Re.alternatives Re.group_name];
    unfold Re.first_alternative;
    rewrite (find_Permutation_unique _ l l' Hperm Hhere).
  - reflexivity.
  - now rewrite (IH (S pos) Hrest).
Qed.

Lemma compiled_alternatives_nonempty (symbols : list string) :
  symbols <> [] -> compiled_alternatives symbols = symbols.
Proof. now destruct symbols. Qed.

Lemma keys_nonempty (order : list string -> list string) (d : dict string) :
  lists_all_keys order -> d <> [] ->
  compiled_alternatives (keys order d) = keys order d.
Proof.
  intros Horder Hne. apply compiled_alternatives_nonempty.
  unfold keys. intros Hnil. pose proof (Horder (inserted d)) as Hperm.
  rewrite Hnil in Hperm. apply Permutation_sym, Permutation_nil in Hperm.
  destruct d; [contradiction | discriminate].
Qed.

(** X7: with a table that is not empty, the steps from the pairs to the
    element never raise: either no symbol of the table occurs anywhere in
    the text and nothing is made, or the element is the image of a symbol
    found in the text, at the last position where a symbol is found. *)
Theorem first_image_of_nonempty_table :
  forall (order : list string -> list string)
         (dict_str : dict string -> string) (pairs : list (string * value))
         (ext : EmoticonExtension) (d : dict string) (text : string)
         (doc : Document),
    lists_all_keys order ->
    __init__ (Some pairs) = Ok ext ->
    getConfig ext "EMOTICONS" = VDict d ->
    d <> [] ->
    match first_image order dict_str (Some pairs) text doc with
    | Ok (Some el) =>
        exists S name pos,
          dict_get d S = Some name
          /\ substring pos (String.length S) text = S
          /\ (forall S' pos', pos < pos' -> pos' <= String.length text ->
                In S' (inserted d) ->
                String.prefix S' (Re.skip pos' text) = false)
          /\ el = img (str dict_str (getConfig ext "BASE_URL") ++ name ++ "."
                       ++ str dict_str (getConfig ext "FILE_EXTENSION")) S
    | Ok None =>
        forall S pos, In S (inserted d) ->
                      String.prefix S (Re.skip pos text) = false
    | Raise _ => False
    end.
Proof.
  intros order dict_str pairs ext d text doc Horder Hok Hd Hne.
  rewrite (first_image_eq order dict_str pairs ext d text doc Hok Hd).
  rewrite (keys_nonempty order d Horder Hne).
  assert (Hlisted : forall S, In S (inserted d) -> In S (keys order d)).
  { intros S. apply Permutation_in, Horder. }
  assert (Hconfigured : forall S, In S (keys order d) -> In S (inserted d)).
  { intros S. apply Permutation_in, Permutation_sym, Horder. }
  set (r := {| Re.group_name := "emoticon"; Re.alternatives := keys order d |}).
  unfold Re.match_wrapped.
  destruct (Re.match_last_from r 0 text) as [m|] eqn:Hs.
  - destruct (match_last_from_inv r text 0 m Hs)
      as (n & S & Hn & Hgd & Hfirst & Hlast).
    simpl in Hn, Hfirst, Hlast.
    pose proof (find_some _ _ Hfirst) as [Hin Hpre].
    destruct (In_keys_get d S (Hconfigured S Hin)) as [name Hname].
    assert (Hg : Re.group m "emoticon" = Ok S).
    { unfold Re.group. now rewrite Hgd. }
    rewrite (handleMatch_eq dict_str _ m doc S Hg). simpl emoticons.
    rewrite Hd. unfold image_name, getitem. rewrite Hname. simpl bind.
    exists S, name, n. split; [exact Hname|]. split.
    + now apply prefix_skip_substring.
    + split; [|reflexivity].
      intros S' pos' Hlt Hle Hin'.
      exact (proj1 (find_none_all _ _) (Hlast pos' Hlt Hle) S' (Hlisted S' Hin')).
  - intros S pos Hin.
    pose proof (match_last_from_none r text 0 Hs pos) as Hnone.
    exact (proj1 (find_none_all _ _) Hnone S (Hlisted S Hin)).
Qed.

Lemma first_image_of_nonempty_table_witness :
  match first_image (@rev string) (fun _ => "{}") (Some []) doctest_text
          Build_Document with
  | Ok (Some el) =>
      exists S name pos,
        dict_get default_emoticons S = Some name
        /\ substring pos (String.length S) doctest_text = S
        /\ (forall S' pos', pos < pos' -> pos' <= String.length doctest_text ->
              In S' (inserted default_emoticons) ->
              String.prefix S' (Re.skip pos' doctest_text) = false)
        /\ el = img (str (fun _ => "{}") (getConfig default_extension "BASE_URL")
                     ++ name ++ "."
                     ++ str (fun _ => "{}")
                          (getConfig default_extension "FILE_EXTENSION")) S
  | Ok None =>
      forall S pos, In S (inserted default_emoticons) ->
                    String.prefix S (Re.skip pos doctest_text) = false
  | Raise _ => False
  end.
Proof.
  apply (first_image_of_nonempty_table (@rev string) (fun _ => "{}") []
           default_extension default_emoticons doctest_text Build_Document);
    [intros l; apply Permutation_rev | reflexivity | reflexivity | discriminate].
Defined.

Lemma keys_empty (order : list string -> list string) :
  lists_all_keys order -> keys order (@nil (string * string)) = [].
Proof.
  intros Horder. unfold keys. simpl. now apply Permutation_nil, Horder.
Qed.

(** X8: with an empty table the pattern has one empty alternative, which
    matches at every position of every text, and the look-up of the empty
    symbol fails: every text makes the rule raise [KeyError]. *)
Theorem empty_table_raises_KeyError :
  forall (order : list string -> list string)
         (dict_str : dict string -> string) (pairs : list (string * value))
         (ext : EmoticonExtension) (text : string) (doc : Document),
    lists_all_keys order ->
    __init__ (Some pairs) = Ok ext ->
    supplied pairs "EMOTICONS" = Some (VDict []) ->
    first_image order dict_str (Some pairs) text doc = Raise (KeyError "")
    /\ forall (r : Re.Pattern) (pos : nat),
         Re.compile (EMOTICON_RE (keys order (@nil (string * string))))
         = Some r ->
         exists m,
           Re.match_at r text pos = Some m
           /\ Re.group m "emoticon" = Ok ""
           /\ handleMatch dict_str
                {| pattern := EMOTICON_RE (keys order (@nil (string * string)));
                   emoticons := ext |} m doc
              = Raise (KeyError "").
Proof.
  intros order dict_str pairs ext text doc Horder Hok Hsup.
  assert (Hd : getConfig ext "EMOTICONS" = VDict []).
  { rewrite (init_ok_getConfig pairs ext Hok). now rewrite Hsup. }
  pose proof (keys_empty order Horder) as Hkeys.
  split.
  - rewrite (first_image_eq order dict_str pairs ext [] text doc Hok Hd).
    rewrite Hkeys. unfold Re.match_wrapped.
    rewrite (match_last_from_everywhere _ "" text 0)
      by (intros t; now destruct t).
    rewrite (handleMatch_eq dict_str _
               {| Re.start := 0 + String.length text;
                  Re.groupdict := [("emoticon", "")] |}
               doc "" eq_refl).
    simpl emoticons. now rewrite Hd.
  - intros r pos Hr. rewrite compile_EMOTICON_RE, Hkeys in Hr.
    injection Hr as <-.
    exists {| Re.start := pos; Re.groupdict := [("emoticon", "")] |}.
    split; [|split].
    + unfold Re.match_at. simpl. now destruct (Re.skip pos text).
    + reflexivity.
    + rewrite (handleMatch_eq dict_str _
                 {| Re.start := pos; Re.groupdict := [("emoticon", "")] |}
                 doc "" eq_refl).
      simpl emoticons. now rewrite Hd.
Qed.

Lemma empty_table_raises_KeyError_witness :
  first_image (fun l => l) (fun _ => "{}") (Some [("EMOTICONS", VDict [])])
    "hello" Build_Document
  = Raise (KeyError "").
Proof.
  apply (empty_table_raises_KeyError (fun l => l) (fun _ => "{}")
           [("EMOTICONS", VDict [])]
           {| config :=
                dict_set default_config "EMOTICONS"
                  (VDict [],
                   "A mapping from emoticon symbols to image names.") |}
           "hello" Build_Document);
    try reflexivity.
  intros l. apply Permutation_refl.
Defined.

(** X9: [__init__] takes a string for EMOTICONS without complaint; the
    failure comes later: [extendMarkdown] raises [AttributeError], and
    [handleMatch] on a match with the group raises [TypeError]. *)
Theorem string_for_EMOTICONS_fails_late :
  forall (order : list string -> list string)
         (dict_str : dict string -> string) (pairs : list (string * value))
         (ext : EmoticonExtension) (s : string) (md : Markdown),
    __init__ (Some pairs) = Ok ext ->
    supplied pairs "EMOTICONS" = Some (VStr s) ->
    extendMarkdown order ext md = Raise AttributeError
    /\ (forall (p : string) (m : Re.Match) (doc : Document) (S : string),
          Re.group m "emoticon" = Ok S ->
          handleMatch dict_str {| pattern := p; emoticons := ext |} m doc
          = Raise TypeError)
    /\ forall (text : string) (doc : Document),
         first_image order dict_str (Some pairs) text doc
         = Raise AttributeError.
Proof.
  intros order dict_str pairs ext s md Hok Hsup.
  assert (Hd : getConfig ext "EMOTICONS" = VStr s).
  { rewrite (init_ok_getConfig pairs ext Hok). now rewrite Hsup. }
  split; [|split].
  - unfold extendMarkdown. now rewrite Hd.
  - intros p m doc S Hg. rewrite (handleMatch_eq dict_str _ m doc S Hg).
    simpl emoticons. now rewrite Hd.
  - intros text doc. unfold first_image, makeExtension. rewrite Hok.
    simpl bind. unfold extendMarkdown. now rewrite Hd.
Qed.

Lemma string_for_EMOTICONS_fails_late_witness :
  extendMarkdown (fun l => l)
    {| config :=
         dict_set default_config "EMOTICONS"
           (VStr ":)", "A mapping from emoticon symbols to image names.") |}
    {| inlinePatterns := [] |}
  = Raise AttributeError.
Proof.
  apply (string_for_EMOTICONS_fails_late (fun l => l) (fun _ => "{}")
           [("EMOTICONS", VStr ":)")]
           {| config :=
                dict_set default_config "EMOTICONS"
                  (VStr ":)",
                   "A mapping from emoticon symbols to image names.") |}
           ":)" {| inlinePatterns := [] |});
    reflexivity.
Defined.

(** X10: [makeExtension] called without its argument raises [TypeError];
    called with a list of pairs it succeeds exactly when every option name
    in the list is one of the three. *)
Theorem makeExtension_outcomes :
  makeExtension None = Raise TypeError
  /\ forall pairs : list (string * value),
       (exists ext, makeExtension (Some pairs) = Ok ext)
       <-> forall kv, In kv pairs -> recognized (fst kv) = true.
Proof.
  split; [reflexivity|]. intros pairs. unfold makeExtension.
  pose proof (init_cases pairs) as H. split.
  - intros [ext Hok] kv Hin.
    destruct (first_unrecognized pairs) as [bad|] eqn:Hfirst.
    + rewrite Hok in H. discriminate.
    + pose proof (find_none _ _ Hfirst kv Hin) as Hkv. simpl in Hkv.
      now apply negb_false_iff in Hkv.
  - intros Hall.
    assert (Hnone : first_unrecognized pairs = None).
    { apply find_none_all. intros kv Hin. now rewrite (Hall kv Hin). }
    rewrite Hnone in H. destruct H as (ext & Hok & _). now exists ext.
Qed.

(** ** The order of the pairs *)

Lemma dict_get_NoDup_In {V : Type} (l : dict V) (k : string) (v : V) :
  NoDup (inserted l) -> In (k, v) l -> dict_get l k = Some v.
Proof.
  unfold inserted. induction l as [|[k0 v0] l IH]; simpl; [intros _ []|].
  intros Hnd [Heq|Hin].
  - injection Heq as -> ->. now rewrite String.eqb_refl.
  - inversion Hnd as [|? ? Hnotin Hnd']; subst.
    destruct (String.eqb_spec k k0) as [->|_].
    + exfalso. apply Hnotin. apply in_map_iff. now exists (k0, v).
    + now apply IH.
Qed.

Lemma dict_get_Permutation {V : Type} (l l' : dict V) (k : string) :
  Permutation l l' -> NoDup (inserted l) -> dict_get l k = dict_get l' k.
Proof.
  intros Hperm Hnd.
  assert (Hnd' : NoDup (inserted l')).
  { unfold inserted in *. eapply Permutation_NoDup; [|exact Hnd].
    now apply Permutation_map. }
  destruct (dict_get l k) as [v|] eqn:Hl.
  - symmetry. apply dict_get_NoDup_In; [assumption|].
    eapply Permutation_in; [exact Hperm|]. now apply dict_get_In.
  - destruct (dict_get l' k) as [v|] eqn:Hl'; [|reflexivity].
    apply dict_get_In in Hl'.
    apply (Permutation_in _ (Permutation_sym Hperm)) in Hl'.
    apply (dict_get_NoDup_In l k v Hnd) in Hl'. congruence.
Qed.

(** Two dictionaries with the same keys in the same order, none twice,
    and the same value for each key are equal. *)
Lemma dict_ext {V : Type} (d1 d2 : dict V) :
  inserted d1 = inserted d2 ->
  NoDup (inserted d1) ->
  (forall k, dict_get d1 k = dict_get d2 k) ->
  d1 = d2.
Proof.
  unfold inserted. revert d2.
  induction d1 as [|[k1 v1] d1 IH]; intros [|[k2 v2] d2]; simpl;
    try discriminate; [reflexivity|].
  intros [= <- Hkeys] Hnd Hget. inversion Hnd as [|? ? Hnotin Hnd']; subst.
  pose proof (Hget k1) as Hhead. rewrite String.eqb_refl in Hhead.
  injection Hhead as <-. f_equal. apply IH; try assumption.
  intros k. specialize (Hget k).
  destruct (String.eqb_spec k k1) as [Heq|_]; [subst k | exact Hget].
  assert (H1 : dict_get d1 k1 = None).
  { apply has_key_get_none. destruct (has_key d1 k1) eqn:E; [|reflexivity].
    apply has_key_In in E. contradiction. }
  assert (H2 : dict_get d2 k1 = None).
  { apply has_key_get_none. destruct (has_key d2 k1) eqn:E; [|reflexivity].
    apply has_key_In in E. unfold inserted in E. rewrite <- Hkeys in E.
    contradiction. }
  congruence.
Qed.

Lemma default_config_keys_NoDup : NoDup (inserted default_config).
Proof.
  simpl. repeat constructor; simpl; intuition discriminate.
Qed.

(** X11: when no option is named twice, the order of the pairs does not
    matter: a list of pairs [__init__] accepts gives the same extension in
    any other order. *)
Theorem init_order_irrelevant :
  forall (pairs pairs' : list (string * value)) (ext : EmoticonExtension),
    Permutation pairs pairs' ->
    NoDup (map fst pairs) ->
    __init__ (Some pairs) = Ok ext ->
    __init__ (Some pairs') = Ok ext.
Proof.
  intros pairs pairs' ext Hperm Hnd Hok. unfold __init__ in *.
  pose proof (set_configs_spec pairs default_config) as H.
  pose proof (set_configs_spec pairs' default_config) as H'.
  destruct (find (fun kv => negb (has_key default_config (fst kv))) pairs)
    as [bad|] eqn:Hfind.
  { rewrite H in Hok. discriminate. }
  assert (Hfind' : find (fun kv => negb (has_key default_config (fst kv))) pairs'
                   = None).
  { apply find_none_all. intros kv Hin.
    apply (find_none _ _ Hfind).
    eapply Permutation_in; [apply Permutation_sym; exact Hperm | exact Hin]. }
  rewrite Hfind' in H'.
  destruct H as (c & Hset & Hkeys & Hget).
  destruct H' as (c' & Hset' & Hkeys' & Hget').
  rewrite Hset in Hok. simpl in Hok. injection Hok as <-.
  rewrite Hset'. simpl. do 2 f_equal.
  apply dict_ext.
  - congruence.
  - rewrite Hkeys'. apply default_config_keys_NoDup.
  - intros k. rewrite Hget, Hget'.
    rewrite (dict_get_Permutation (rev pairs) (rev pairs') k).
    + reflexivity.
    + apply Permutation_rev' in Hperm. exact Hperm.
    + unfold inserted. rewrite map_rev. now apply NoDup_rev.
Qed.

Lemma init_order_irrelevant_witness :
  __init__ (Some [("FILE_EXTENSION", VStr "jpg"); ("BASE_URL", VStr "/e/")])
  = Ok {| config :=
            dict_set
              (dict_set default_config "BASE_URL"
                 (VStr "/e/", "The base URL at which emoticons are accessible."))
              "FILE_EXTENSION"
              (VStr "jpg", "The file extension to be used for emoticon images.") |}.
Proof.
  apply (init_order_irrelevant
           [("BASE_URL", VStr "/e/"); ("FILE_EXTENSION", VStr "jpg")]).
  - apply perm_swap.
  - simpl. repeat constructor; simpl; intuition discriminate.
  - reflexivity.
Defined.

(** ** Symbols that collide *)

Lemma re_escape_injective (a b : string) : Re.escape a = Re.escape b -> a = b.
Proof.
  intros H.
  pose proof (parse_escape a ")" "" "" [] eq_refl) as Ha.
  pose proof (parse_escape b ")" "" "" [] eq_refl) as Hb.
  rewrite H, Hb in Ha. injection Ha as Ha.
  now rewrite !append_empty_r in Ha.
Qed.

Lemma In_map_escape (a : string) (l : list string) :
  In (Re.escape a) (map Re.escape l) -> In a l.
Proof.
  intros H. apply in_map_iff in H. destruct H as (x & Hx & Hin).
  apply re_escape_injective in Hx. now subst.
Qed.

(** X12: symbols that differ are escaped to alternatives that differ, so a
    table without a repeated key gives a pattern without a repeated
    alternative; and two tables with the same pattern text have the same
    alternatives. *)
Theorem distinct_symbols_distinct_alternatives :
  forall symbols : list string,
    NoDup symbols ->
    NoDup (map Re.escape symbols)
    /\ forall symbols' : list string,
         EMOTICON_RE symbols = EMOTICON_RE symbols' ->
         compiled_alternatives symbols = compiled_alternatives symbols'.
Proof.
  intros symbols Hnd. split.
  - induction Hnd as [|x l Hnotin Hnd IH]; simpl; constructor.
    + intros Hin. apply Hnotin. now apply In_map_escape.
    + exact IH.
  - intros symbols' Heq.
    pose proof (compile_EMOTICON_RE symbols) as H.
    rewrite Heq, compile_EMOTICON_RE in H. now injection H.
Qed.

Lemma distinct_symbols_distinct_alternatives_witness :
  NoDup (map Re.escape [":)"; ":("; ";)"]).
Proof.
  apply (distinct_symbols_distinct_alternatives [":)"; ":("; ";)"]).
  repeat constructor; simpl; intuition discriminate.
Defined.

Lemma prefix_trans (a b t : string) :
  String.prefix a b = true -> String.prefix b t = true ->
  String.prefix a t = true.
Proof.
  revert b t. induction a as [|c a IH]; intros [|d b] [|e t]; simpl;
    try reflexivity; try discriminate.
  destruct (Ascii.ascii_dec c d) as [->|]; [|discriminate].
  destruct (Ascii.ascii_dec d e) as [->|]; [|discriminate].
  apply IH.
Qed.

Lemma find_after_hit {A : Type} (f : A -> bool) (l1 l2 : list A) (a s : A) :
  f a = true ->
  find f (l1 ++ a :: l2)%list = Some s ->
  In s l1 \/ s = a.
Proof.
  intros Ha. induction l1 as [|x l1 IH]; simpl.
  - rewrite Ha. intros [= <-]. now right.
  - destruct (f x).
    + intros [= <-]. left. now left.
    + intros H. destruct (IH H) as [Hin|Heq]; [left; now right | now right].
Qed.

Lemma find_hit {A : Type} (f : A -> bool) (l1 l2 : list A) (a : A) :
  f a = true ->
  exists s, find f (l1 ++ a :: l2)%list = Some s /\ In s (l1 ++ [a])%list.
Proof.
  intros Ha.
  destruct (find f (l1 ++ a :: l2)%list) as [s|] eqn:Hfind.
  - exists s. split; [reflexivity|].
    apply in_or_app. destruct (find_after_hit f l1 l2 a s Ha Hfind) as [H|H];
      [now left | right; now left].
  - pose proof (find_none _ _ Hfind a) as H.
    rewrite H in Ha; [discriminate|]. apply in_or_app. right. now left.
Qed.

(** X13: a symbol [b] that starts with another symbol [a] listed before
    it among the keys is never matched: no match of the pattern is [b],
    and where a text has [b] the match is [a] or a symbol listed before
    [a]. *)
Theorem shadowed_symbol_never_matches :
  forall (order : list string -> list string) (d : dict string)
         (before after : list string) (a b : string) (r : Re.Pattern),
    keys order d = (before ++ a :: after)%list ->
    String.prefix a b = true ->
    a <> b ->
    ~ In b before ->
    Re.compile (EMOTICON_RE (keys order d)) = Some r ->
    (forall (text : string) (pos : nat) (m : Re.Match),
       Re.match_at r text pos = Some m ->
       Re.group m "emoticon" <> Ok b)
    /\ (forall (text : string) (pos : nat),
          String.prefix b (Re.skip pos text) = true ->
          exists m S,
            Re.match_at r text pos = Some m
            /\ Re.group m "emoticon" = Ok S
            /\ In S (before ++ [a])%list).
Proof.
  intros order d before after a b r Hkeys Hpre Hab Hnotin Hr.
  rewrite compile_EMOTICON_RE in Hr. injection Hr as <-.
  rewrite compiled_alternatives_nonempty
    by (rewrite Hkeys; now destruct before).
  rewrite Hkeys. split.
  - intros text pos m Hm Hg.
    apply match_at_inv in Hm. destruct Hm as (s & Hfirst & ->).
    simpl in Hfirst, Hg. injection Hg as ->.
    unfold Re.first_alternative in Hfirst.
    pose proof (find_some _ _ Hfirst) as [_ Hb].
    apply find_after_hit in Hfirst.
    + destruct Hfirst as [Hin|Heq]; [contradiction | now symmetry in Heq].
    + now apply (prefix_trans a b).
  - intros text pos Hb.
    destruct (find_hit (fun s => String.prefix s (Re.skip pos text))
                before after a (prefix_trans a b _ Hpre Hb))
      as (S & Hfind & Hin).
    exists {| Re.start := pos; Re.groupdict := [("emoticon", S)] |}, S.
    split; [|split; [reflexivity | exact Hin]].
    unfold Re.match_at, Re.first_alternative. simpl. now rewrite Hfind.
Qed.

Lemma shadowed_symbol_never_matches_witness :
  Re.group {| Re.start := 0; Re.groupdict := [("emoticon", ":o")] |} "emoticon"
  <> Ok ":oo".
Proof.
  apply (proj1 (shadowed_symbol_never_matches (fun l => l) short_first
                  [] [":oo"] ":o" ":oo"
                  {| Re.group_name := "emoticon";
                     Re.alternatives := keys (fun l => l) short_first |}
                  eq_refl eq_refl
                  ltac:(discriminate) ltac:(intros []) eq_refl)
           ":oo" 0).
  reflexivity.
Defined.

(** ** The order of the keys on a plain text *)

(** Where no two symbols of the table match at the same position of the
    text, the element made is the same in whichever order the keys are
    listed. *)
Lemma first_image_order_irrelevant (order : list string -> list string)
    (dict_str : dict string -> string) (pairs : list (string * value))
    (ext : EmoticonExtension) (d : dict string) (text : string)
    (doc : Document) :
  lists_all_keys order ->
  __init__ (Some pairs) = Ok ext ->
  getConfig ext "EMOTICONS" = VDict d ->
  d <> [] ->
  Re.unambiguous (inserted d) text = true ->
  first_image order dict_str (Some pairs) text doc
  = first_image (fun l => l) dict_str (Some pairs) text doc.
Proof.
  intros Horder Hok Hd Hne Hun.
  assert (Hid : lists_all_keys (fun l => l)) by (intros l; apply Permutation_refl).
  rewrite (first_image_eq order dict_str pairs ext d text doc Hok Hd).
  rewrite (first_image_eq (fun l => l) dict_str pairs ext d text doc Hok Hd).
  rewrite (keys_nonempty order d Horder Hne), (keys_nonempty _ d Hid Hne).
  unfold Re.match_wrapped.
  rewrite (match_last_from_Permutation "emoticon" (inserted d) (keys order d)
             text 0 (Horder (inserted d)) Hun).
  reflexivity.
Qed.

Ltac in_written_order Horder :=
  match goal with
  | |- first_image ?o ?ds (Some ?pairs) ?text ?doc = _ =>
      let e := eval vm_compute in (__init__ (Some pairs)) in
      match e with
      | Ok ?ext =>
          let v := eval vm_compute in (getConfig ext "EMOTICONS") in
          match v with
          | VDict ?d =>
              rewrite (first_image_order_irrelevant o ds pairs ext d text doc
                         Horder eq_refl eq_refl);
              [vm_compute; reflexivity | discriminate | vm_compute; reflexivity]
          end
      end
  end.

(** X14: the three examples of the module's documentation, in whichever
    order the keys are listed: the text with [:p] gives [tongue.gif] with
    the default configuration, [/emoticons/tongue.jpg] with a base URL and
    an extension, and [cheeky.png] at the base URL given with a table of
    its own; [alt] is [:p] each time. *)
Theorem docstring_examples :
  forall (order : list string -> list string)
         (dict_str : dict string -> string) (doc : Document),
    lists_all_keys order ->
    first_image order dict_str (Some []) doctest_text doc
    = Ok (Some (img "tongue.gif" ":p"))
    /\ first_image order dict_str
         (Some [("BASE_URL", VStr "/emoticons/");
                ("FILE_EXTENSION", VStr "jpg")])
         doctest_text doc
       = Ok (Some (img "/emoticons/tongue.jpg" ":p"))
    /\ first_image order dict_str
         (Some [("EMOTICONS", VDict (dict_of_items [(":p", "cheeky")]));
                ("BASE_URL", VStr "http://supoib-emoticons.com/");
                ("FILE_EXTENSION", VStr "png")])
         doctest_text doc
       = Ok (Some (img "http://supoib-emoticons.com/cheeky.png" ":p")).
Proof.
  intros order dict_str doc Horder.
  split; [|split]; in_written_order Horder.
Qed.

Lemma docstring_examples_witness :
  first_image (@rev string) (fun _ => "{}") (Some []) doctest_text
    Build_Document
  = Ok (Some (img "tongue.gif" ":p")).
Proof.
  apply (docstring_examples (@rev string) (fun _ => "{}") Build_Document).
  intros l. apply Permutation_rev.
Defined.
